(** * vimeo_uploader: the pipeline driver of [core/driver.py]

    A shallow embedding of [Driver.process], of the module-level helpers
    [download_youtube_resources], [join_resource], [trim_resource] and
    [upload_video_to_vimeo], and of the command-line [main].

    The driver is glue code around three external libraries (pytube,
    ffmpeg-python, PyVimeo) and the local file system.  Every call into
    one of them is recorded in a trace, in the order the source makes it,
    and answered by an oracle: an arbitrary function of the call and of
    the whole state reached so far. *)

From Stdlib Require Import ZArith String Ascii List Sorted Lia.
From Stdlib Require Import DecimalString DecimalPos DecimalZ.
From stdpp Require Import base decidable strings gmap.

#[local] Set Warnings "-clear-no-such-hyp".

Import ListNotations.
Local Open Scope Z_scope.
Local Open Scope string_scope.
Local Open Scope list_scope.

(** ** Python values and strings *)

Module Py.

(** [str(n)] for an [int]. *)
Definition str_int (n : Z) : string := NilZero.string_of_int (Z.to_int n).

(** [s.startswith('/')] and [s.endswith('/')]. *)
Definition starts_with_sep (s : string) : bool :=
  match s with
  | String c _ => bool_decide (c = "/"%char)
  | EmptyString => false
  end.

Fixpoint ends_with_sep (s : string) : bool :=
  match s with
  | EmptyString => false
  | String c EmptyString => bool_decide (c = "/"%char)
  | String _ rest => ends_with_sep rest
  end.

(** [os.path.join(a, b)] of [posixpath], for two components. *)
Definition path_join (a b : string) : string :=
  if starts_with_sep b then b
  else if orb (bool_decide (a = "")) (ends_with_sep a) then a +:+ b
  else a +:+ "/" +:+ b.

(** A calendar date, as [date.today()] returns it. *)
Record date := Date { year : Z; month : Z; day : Z }.

(** Two decimal digits, zero padded: the [%m], [%d] and [%y] fields. *)
Definition two_digits (n : Z) : string :=
  let r := n mod 100 in
  (if Z.ltb r 10 then "0" else "") +:+ str_int r.

(** [today.strftime("%m/%d/%y")]. *)
Definition strftime_mdy (d : date) : string :=
  two_digits (month d) +:+ "/" +:+ two_digits (day d) +:+ "/" +:+
  two_digits (year d).

(** The results a library call hands back to the driver. *)
Inductive value :=
| VNone
| VStr (s : string)
| VInt (n : Z)
| VObj.

(** [str(v)], as the [%s] of a log format applies it. *)
Definition str_value (v : value) : string :=
  match v with
  | VNone => "None"
  | VStr s => s
  | VInt n => str_int n
  | VObj => "<object>"
  end.

(** Exception classes the driver raises, catches or lets through. *)
Inductive exn_class :=
| AttributeError
| TypeError
| ValueError
| OSError
| PytubeError
| VideoUploadFailure
| SystemExit (code : Z)
| OtherError (name : string).

Record exn := Exn { exn_cls : exn_class; exn_msg : string }.

#[export] Instance exn_class_eq_dec : EqDecision exn_class.
Proof. solve_decision. Defined.
#[export] Instance exn_eq_dec : EqDecision exn.
Proof. solve_decision. Defined.
#[export] Instance value_eq_dec : EqDecision value.
Proof. solve_decision. Defined.

(** [type(v).__name__], as error messages print it; an opaque library
    object is of a class that has no say in what the driver does with
    it, written [object]. *)
Definition type_name (v : value) : string :=
  match v with
  | VNone => "NoneType"
  | VStr _ => "str"
  | VInt _ => "int"
  | VObj => "object"
  end.

(** [v is not None]. *)
Definition is_not_None (v : value) : bool :=
  match v with
  | VNone => false
  | _ => true
  end.

(** The characters a string literal cannot hold directly. *)
Definition dquote : string := String (ascii_of_nat 34) "".
Definition newline : string := String (ascii_of_nat 10) "".

(** Truthiness of an optional string: [None] and [''] are false. *)
Definition truthy (s : option string) : bool :=
  match s with
  | Some t => negb (bool_decide (t = ""))
  | None => false
  end.

End Py.

Export Py.

(** ** Configuration records

    [model/config.py] declares them; the fields are the ones the driver
    reads. *)

Record VimeoConfiguration := {
  token : string;
  key : string;
  secret : string
}.

Record AppDirectoryConfiguration := {
  videos_dir : string
}.

Record VideoConfiguration := {
  video_id : string;
  start_time_in_sec : Z;
  end_time_in_sec : Z;
  resolution : string;
  video_title : option string;
  image_url : option string
}.

(** ** Observable events *)

(** Which stream [youtube.streams.filter(...).first()] asks for. *)
Inductive stream_query :=
| by_resolution (resolution : string)
| only_audio.

(** Calls that leave the driver: the operating system, pytube,
    ffmpeg-python and the Vimeo client. *)
Inductive call :=
| os_mkdir (path : string)
| YouTube (url : string)
| streams_first (url : string) (q : stream_query)
| stream_download (output_path filename : string)
| ffmpeg_run (inputs : list string) (output : string)
    (kwargs : list (string * value))
| VimeoClient (token key secret : string)
| client_upload (video_path name privacy_comments : string)
| client_get_json (url : string)
| client_upload_picture (uri : value) (image : string) (activate : bool).

(** The module-level helpers of [driver.py], with their arguments. *)
Inductive helper :=
| Hdownload_youtube_resources
    (download_path url video_name audio_name resolution : string)
| Hjoin_resource (video_path audio_path output_path : string)
| Htrim_resource (input_path output_path : string)
    (start_time_in_sec end_time_in_sec : Z)
| Hupload_video_to_vimeo (video_path video_title : string).

(** What a spy on the helpers and on the libraries records. *)
Inductive event :=
| Invoked (h : helper)
| Returned (h : helper) (v : value)
| Called (c : call).

Inductive level := INFO | ERROR.

#[export] Instance stream_query_eq_dec : EqDecision stream_query.
Proof. solve_decision. Defined.
#[export] Instance call_eq_dec : EqDecision call.
Proof. solve_decision. Defined.
#[export] Instance helper_eq_dec : EqDecision helper.
Proof. solve_decision. Defined.
#[export] Instance event_eq_dec : EqDecision event.
Proof. solve_decision. Defined.

(** ** The world the driver runs in *)

Record world := World {
  fs : gset string;                (* paths present on local storage *)
  today : date;                    (* what [date.today()] answers *)
  trace : list event;              (* events so far, oldest first *)
  log : list (level * string)      (* records written to output.log *)
}.

(** What a library call does: the paths it creates on local storage,
    and the value it returns or the exception it raises.  No call
    removes a path. *)
Record outcome := Outcome {
  created : gset string;
  answer : exn + value
}.

(** The environment: the libraries' behaviour, and the functions of
    [core/util.py] that the driver imports. *)
Record env := Env {
  respond : call -> world -> outcome;
  get_youtube_url : string -> string;
  get_vimeo_configuration : string -> exn + VimeoConfiguration;
  get_video_configuration :
    string -> string -> string -> string -> option string ->
    option string -> exn + VideoConfiguration
}.

(** ** Computations: state and exceptions *)

Inductive result (A : Type) :=
| Ok (a : A)
| Raise (e : exn).
Arguments Ok {A} a.
Arguments Raise {A} e.

Definition M (A : Type) : Type := world -> result A * world.

Definition ret {A} (a : A) : M A := fun w => (Ok a, w).

Definition raise {A} (e : exn) : M A := fun w => (Raise e, w).

Definition bind {A B} (m : M A) (f : A -> M B) : M B :=
  fun w =>
    match m w with
    | (Ok a, w1) => f a w1
    | (Raise e, w1) => (Raise e, w1)
    end.

Declare Scope py_scope.
Delimit Scope py_scope with py.
Notation "x <- m ;; k" := (bind m (fun x => k))
  (at level 100, m at next level, right associativity) : py_scope.
Notation "m ;;; k" := (bind m (fun _ => k))
  (at level 100, right associativity) : py_scope.
Local Open Scope py_scope.

(** [try: body except <classes> as error: handler error]. *)
Definition try_except {A} (body : M A) (catches : exn -> bool)
    (handler : exn -> M A) : M A :=
  fun w =>
    match body w with
    | (Raise e, w1) => if catches e then handler e w1 else (Raise e, w1)
    | r => r
    end.

Definition of_sum {A} (r : exn + A) : M A :=
  match r with
  | inl e => raise e
  | inr a => ret a
  end.

Definition record (e : event) : M unit :=
  fun w => (Ok tt, World (fs w) (today w) (trace w ++ [e]) (log w)).

Definition logging (l : level) (msg : string) : M unit :=
  fun w => (Ok tt, World (fs w) (today w) (trace w) (log w ++ [(l, msg)])).

(** [os.path.exists(path)]. *)
Definition path_exists (path : string) : M bool :=
  fun w => (Ok (bool_decide (path ∈ fs w)), w).

(** [date.today()]. *)
Definition date_today : M date := fun w => (Ok (today w), w).

Section Driver.

Context (E : env).

(** A call into a library: recorded, then answered by the oracle. *)
Definition call_lib (c : call) : M value :=
  fun w =>
    let o := respond E c w in
    let w1 := World (fs w ∪ created o) (today w)
                (trace w ++ [Called c]) (log w) in
    match answer o with
    | inl e => (Raise e, w1)
    | inr v => (Ok v, w1)
    end.

(** [os.mkdir(path)]: the directory exists afterwards unless the call
    raised. *)
Definition mkdir (path : string) : M unit :=
  fun w =>
    match call_lib (os_mkdir path) w with
    | (Ok _, w1) =>
        (Ok tt, World ({[ path ]} ∪ fs w1) (today w1) (trace w1) (log w1))
    | (Raise e, w1) => (Raise e, w1)
    end.

(** A helper under a spy: its invocation and its normal return are
    recorded. *)
Definition spied (h : helper) (body : M value) : M value :=
  record (Invoked h) ;;;
  v <- body ;;
  record (Returned h v) ;;;
  ret v.

(** [obj.attr] where [obj] may be [None]. *)
Definition getattr {A B} (obj : option A) (attr : string) (f : A -> B)
    : M B :=
  match obj with
  | Some o => ret (f o)
  | None =>
      raise (Exn AttributeError
               ("'NoneType' object has no attribute '" +:+ attr +:+ "'"))
  end.

Definition is_PytubeError (e : exn) : bool :=
  bool_decide (exn_cls e = PytubeError).

Definition is_VideoUploadFailure (e : exn) : bool :=
  bool_decide (exn_cls e = VideoUploadFailure).

(** [stream.download(output_path, filename)]; only a stream object has
    the method. *)
Definition download (stream : value) (output_path filename : string)
    : M value :=
  match stream with
  | VObj => call_lib (stream_download output_path filename)
  | _ =>
      raise (Exn AttributeError
               ("'" +:+ type_name stream +:+
                "' object has no attribute 'download'"))
  end.

Definition download_youtube_resources
    (download_path url video_name audio_name resolution : string)
    : M value :=
  spied (Hdownload_youtube_resources download_path url video_name
           audio_name resolution)
    (try_except
       (call_lib (YouTube url) ;;;
        video <- call_lib (streams_first url (by_resolution resolution)) ;;
        download video download_path video_name ;;;
        audio <- call_lib (streams_first url only_audio) ;;
        download audio download_path audio_name ;;;
        ret VNone)
       is_PytubeError
       (fun error =>
          logging ERROR
            ("Failed to download the video or audio " +:+ exn_msg error) ;;;
          raise error)).

Definition join_resource (video_path audio_path output_path : string)
    : M value :=
  spied (Hjoin_resource video_path audio_path output_path)
    (call_lib (ffmpeg_run [video_path; audio_path] output_path
                 [("vcodec", VStr "copy")]) ;;;
     ret VNone).

Definition trim_resource (input_path output_path : string)
    (start_time_in_sec end_time_in_sec : Z) : M value :=
  spied (Htrim_resource input_path output_path start_time_in_sec
           end_time_in_sec)
    (call_lib (ffmpeg_run [input_path] output_path
                 [("ss", VInt start_time_in_sec);
                  ("t", VInt end_time_in_sec);
                  ("vcodec", VStr "copy");
                  ("acodec", VStr "copy")]) ;;;
     ret VNone).

(** [uri + '?fields=transcode.status']: defined on strings only. *)
Definition add_str (v : value) (s : string) : M string :=
  match v with
  | VStr u => ret (u +:+ s)
  | _ =>
      raise (Exn TypeError
               ("unsupported operand type(s) for +: '" +:+ type_name v +:+
                "' and 'str'"))
  end.

Definition upload_video_to_vimeo (video_path video_title : string)
    : M value :=
  spied (Hupload_video_to_vimeo video_path video_title)
    (uri <- try_except
              (call_lib (client_upload video_path video_title "nobody"))
              is_VideoUploadFailure
              (fun error =>
                 logging ERROR ("Error uploading " +:+ video_path) ;;;
                 logging ERROR ("Server reported: " +:+ exn_msg error) ;;;
                 raise error) ;;
     query <- add_str uri "?fields=transcode.status" ;;
     status <- call_lib (client_get_json query) ;;
     logging INFO
       ("The transcode status for " +:+ str_value uri +:+ " is: " +:+
        str_value status) ;;;
     ret uri).

End Driver.

(** ** The driver *)

Record Driver := {
  vimeo_config : option VimeoConfiguration;
  app_directory_config : option AppDirectoryConfiguration
}.

Definition update_vimeo_config (self : Driver) (c : VimeoConfiguration)
    : Driver :=
  {| vimeo_config := Some c;
     app_directory_config := app_directory_config self |}.

Definition update_app_directory_config (self : Driver)
    (c : AppDirectoryConfiguration) : Driver :=
  {| vimeo_config := vimeo_config self; app_directory_config := Some c |}.

(** The four file names of lines 83-87. *)
Record artifacts := Artifacts {
  video_stream : string;
  audio_stream : string;
  combined_video : string;
  trimmed_video : string
}.

Definition artifact_names (video_config : VideoConfiguration) : artifacts :=
  let resolution := resolution video_config in
  let suffix :=
    str_int (start_time_in_sec video_config) +:+ "_" +:+
    str_int (end_time_in_sec video_config) in
  {| video_stream := "video_stream_" +:+ resolution +:+ ".mp4";
     audio_stream := "audio_stream_" +:+ resolution +:+ ".mp3";
     combined_video := "combined_" +:+ resolution +:+ ".mp4";
     trimmed_video := suffix +:+ "_" +:+ resolution +:+ ".mp4" |}.

(** The per-video directory of lines 89-90 and the four paths of lines
    94-97. *)
Definition video_dir_of (c : AppDirectoryConfiguration)
    (video_config : VideoConfiguration) : string :=
  path_join (videos_dir c) (video_id video_config).

Definition artifact_paths (c : AppDirectoryConfiguration)
    (video_config : VideoConfiguration) : artifacts :=
  let video_dir := video_dir_of c video_config in
  let names := artifact_names video_config in
  {| video_stream := path_join video_dir (video_stream names);
     audio_stream := path_join video_dir (audio_stream names);
     combined_video := path_join video_dir (combined_video names);
     trimmed_video := path_join video_dir (trimmed_video names) |}.

(** The title sanitization of lines 76-80. *)
Definition default_title (d : date) : string := "(CW) " +:+ strftime_mdy d.

Definition resolve_title (title : option string) : M string :=
  match title with
  | Some t =>
      if bool_decide (t = "")
      then (d <- date_today ;; ret (default_title d))
      else ret t
  | None => d <- date_today ;; ret (default_title d)
  end.

Section Process.

Context (E : env).

Definition process (self : Driver) (video_config : VideoConfiguration)
    : M unit :=
  let video_id := video_id video_config in
  let start_time_in_sec := start_time_in_sec video_config in
  let end_time_in_sec := end_time_in_sec video_config in
  let image := image_url video_config in
  let resolution := resolution video_config in
  title <- resolve_title (video_title video_config) ;;
  let url := get_youtube_url E video_id in
  let names := artifact_names video_config in
  (* [self.app_directory_config.videos_dir], read inside [video_dir_of] *)
  c <- getattr (app_directory_config self) "videos_dir" id ;;
  let video_dir := video_dir_of c video_config in
  dir_exists <- path_exists video_dir ;;
  (if negb dir_exists then
     logging INFO ("Creating directory " +:+ video_dir) ;;;
     mkdir E video_dir
   else ret tt) ;;;
  let paths := artifact_paths c video_config in
  have_video <- path_exists (video_stream paths) ;;
  have_audio <- path_exists (audio_stream paths) ;;
  (if negb have_video || negb have_audio then
     download_youtube_resources E video_dir url (video_stream names)
       (audio_stream names) resolution ;;;
     logging INFO "Downloaded the video and audio tracks"
   else ret tt) ;;;
  logging INFO
    "Now, going to try to magically merge the video and audio with trim" ;;;
  have_combined <- path_exists (combined_video paths) ;;
  (if negb have_combined then
     join_resource E (video_stream paths) (audio_stream paths)
       (combined_video paths) ;;;
     logging INFO "Finished joining the video"
   else ret tt) ;;;
  have_trimmed <- path_exists (trimmed_video paths) ;;
  (if negb have_trimmed then
     trim_resource E (combined_video paths) (trimmed_video paths)
       start_time_in_sec end_time_in_sec ;;;
     logging INFO "Finished trimming the video"
   else ret tt) ;;;
  token <- getattr (vimeo_config self) "token" token ;;
  key <- getattr (vimeo_config self) "key" key ;;
  secret <- getattr (vimeo_config self) "secret" secret ;;
  call_lib E (VimeoClient token key secret) ;;;
  logging INFO
    ("Uploading video to Vimeo from path: " +:+ trimmed_video paths) ;;;
  uri <- upload_video_to_vimeo E (trimmed_video paths) title ;;
  (if is_not_None uri && truthy image then
     call_lib E (client_upload_picture uri (default "" image) true) ;;;
     ret tt
   else ret tt) ;;;
  logging INFO
    ("Vimeo URL " +:+ dquote +:+ "https://vimeo.com/[video_id]" +:+ dquote +:+
     " where the video_id is the number in the URI" +:+ newline) ;;;
  logging INFO ("This is the link supplied to the website" +:+ newline).

(** The parsed command line of [main]. *)
Record Args := {
  arg_url : string;
  arg_start : string;
  arg_end : string;
  arg_config : string;
  arg_image : option string;
  arg_resolution : string;
  arg_title : option string
}.

(** [sys.exit(code)]. *)
Definition sys_exit {A} (code : Z) : M A := raise (Exn (SystemExit code) "").

(** [main], from line 284 on: the arguments are parsed already. *)
Definition main (args : Args) : M unit :=
  vimeo_config <- of_sum (get_vimeo_configuration E (arg_config args)) ;;
  video_config <-
    try_except
      (of_sum (get_video_configuration E (arg_url args) (arg_start args)
                 (arg_end args) (arg_resolution args) (arg_title args)
                 (arg_image args)))
      (fun error => is_PytubeError error || is_VideoUploadFailure error)
      (fun error =>
         logging ERROR ("Failed with exception " +:+ exn_msg error) ;;;
         sys_exit 1) ;;
  let driver :=
    {| vimeo_config := Some vimeo_config; app_directory_config := None |} in
  process driver video_config.

End Process.

(** ** Events a run adds to the trace *)

(** The events [m] appends when started in [w]. *)
Definition emitted {A} (m : M A) (w : world) : list event :=
  drop (length (trace w)) (trace (m w).2).

(** Classification of events, for counting invocations. *)
Definition is_download (e : event) : bool :=
  match e with
  | Invoked (Hdownload_youtube_resources _ _ _ _ _) => true
  | Called (YouTube _) => true
  | Called (streams_first _ _) => true
  | Called (stream_download _ _) => true
  | _ => false
  end.

Definition is_join (e : event) : bool :=
  match e with
  | Invoked (Hjoin_resource _ _ _) => true
  | Called (ffmpeg_run [_; _] _ _) => true
  | _ => false
  end.

Definition is_trim (e : event) : bool :=
  match e with
  | Invoked (Htrim_resource _ _ _ _) => true
  | Called (ffmpeg_run [_] _ _) => true
  | _ => false
  end.

Definition is_upload (e : event) : bool :=
  match e with
  | Invoked (Hupload_video_to_vimeo _ _) => true
  | Called (client_upload _ _ _) => true
  | _ => false
  end.

Definition is_upload_picture (e : event) : bool :=
  match e with
  | Called (client_upload_picture _ _ _) => true
  | _ => false
  end.

(** Any invocation of a stage helper or call into a library. *)
Definition is_collaborator (e : event) : bool :=
  match e with
  | Invoked _ => true
  | Called _ => true
  | Returned _ _ => false
  end.

(** [call_count p l]: how many events of [l] satisfy [p]. *)
Definition call_count (p : event -> bool) (l : list event) : nat :=
  length (filter (fun e => p e = true) l).

(** ** A program logic for runs *)

(** [emits I m Phi]: started in a world satisfying the invariant [I],
    the computation [m] re-establishes [I], only appends to the trace,
    and its result and the appended events satisfy [Phi]. *)
Definition emits {A} (I : world -> Prop) (m : M A)
    (Phi : result A -> list event -> Prop) : Prop :=
  forall w, I w ->
    I (m w).2 /\ exists l, trace (m w).2 = trace w ++ l /\ Phi (m w).1 l.

(** [keeps I P m Q]: every appended event satisfies [P], and a returned
    value satisfies [Q]. *)
Definition keeps {A} (I : world -> Prop) (P : event -> Prop) (m : M A)
    (Q : A -> Prop) : Prop :=
  emits I m (fun r l => Forall P l /\ forall a, r = Ok a -> Q a).

(** Invariants that survive a growing store, a longer trace and a longer
    log. *)
Class Stable (I : world -> Prop) : Prop :=
  stable : forall w w',
    fs w ⊆ fs w' -> today w' = today w -> I w -> I w'.

(** ** The events of a run, stage by stage *)

(** The last part of [process], from the upload on (lines 140-149),
    under a name of its own. *)
Definition upload_and_attach (E : env) (trimmed_video_path title : string)
    (image : option string) : M unit :=
  uri <- upload_video_to_vimeo E trimmed_video_path title ;;
  (if is_not_None uri && truthy image then
     call_lib E (client_upload_picture uri (default "" image) true) ;;;
     ret tt
   else ret tt) ;;;
  logging INFO
    ("Vimeo URL " +:+ dquote +:+ "https://vimeo.com/[video_id]" +:+ dquote +:+
     " where the video_id is the number in the URI" +:+ newline) ;;;
  logging INFO ("This is the link supplied to the website" +:+ newline).


(** What [upload_video_to_vimeo video_path title] appends: its
    invocation, the upload call and, if that returned a string, the
    status query; its return is recorded only when both succeeded. *)
Definition upload_events (video_path title : string) (r : result value)
    (l : list event) : Prop :=
  let h := Hupload_video_to_vimeo video_path title in
  let up := Called (client_upload video_path title "nobody") in
  match r with
  | Ok v =>
      exists u, v = VStr u /\
        l = [Invoked h; up;
             Called (client_get_json (u +:+ "?fields=transcode.status"));
             Returned h v]
  | Raise _ =>
      l = [Invoked h; up] \/
      exists u,
        l = [Invoked h; up;
             Called (client_get_json (u +:+ "?fields=transcode.status"))]
  end.

(** What the steps after the upload append. *)
Definition attach_events (uri : value) (image : option string)
    (l : list event) : Prop :=
  l = if is_not_None uri && truthy image
      then [Called (client_upload_picture uri (default "" image) true)]
      else [].

(** The events of the last part of [process]: those of the upload,
    then those of the thumbnail step if the upload returned. *)
Definition tail_events (video_path title : string) (image : option string)
    (l : list event) : Prop :=
  exists r lu, upload_events video_path title r lu /\
    match r with
    | Ok uri => exists la, attach_events uri image la /\ l = lu ++ la
    | Raise _ => l = lu
    end.

(** The title [process] settles on, given today's date. *)
Definition title_for (d : date) (title : option string) : string :=
  match title with
  | Some t => if bool_decide (t = "") then default_title d else t
  | None => default_title d
  end.

(** What the stage events of a run of [process] look like: each helper
    is invoked on the artifact paths of the request, and ffmpeg is run
    with the arguments [join_resource] and [trim_resource] pass on.  *)
Definition stage_event (url : string) (c : AppDirectoryConfiguration)
    (video_config : VideoConfiguration) (e : event) : Prop :=
  let paths := artifact_paths c video_config in
  let names := artifact_names video_config in
  match e with
  | Invoked h | Returned h _ =>
      h = Hdownload_youtube_resources (video_dir_of c video_config) url
            (video_stream names) (audio_stream names)
            (resolution video_config) \/
      h = Hjoin_resource (video_stream paths) (audio_stream paths)
            (combined_video paths) \/
      h = Htrim_resource (combined_video paths) (trimmed_video paths)
            (start_time_in_sec video_config) (end_time_in_sec video_config) \/
      exists title, h = Hupload_video_to_vimeo (trimmed_video paths) title
  | Called (ffmpeg_run inputs output kwargs) =>
      (inputs = [video_stream paths; audio_stream paths] /\
       output = combined_video paths /\
       kwargs = [("vcodec", VStr "copy")]) \/
      (inputs = [combined_video paths] /\
       output = trimmed_video paths /\
       kwargs = [("ss", VInt (start_time_in_sec video_config));
                 ("t", VInt (end_time_in_sec video_config));
                 ("vcodec", VStr "copy"); ("acodec", VStr "copy")])
  | Called (client_upload video_path _ _) =>
      video_path = trimmed_video paths
  | Called _ => True
  end.

(** ** Timestamps *)

(** [free_of c s]: the character [c] does not occur in [s]. *)
Fixpoint free_of (c : ascii) (s : string) : bool :=
  match s with
  | EmptyString => true
  | String a rest => negb (Ascii.eqb a c) && free_of c rest
  end.

(** [s.split(sep)] for a one-character separator. *)
Fixpoint split_on (sep : ascii) (s : string) : list string :=
  match s with
  | EmptyString => [""]
  | String a rest =>
      match split_on sep rest with
      | cur :: others =>
          if Ascii.eqb a sep then "" :: cur :: others
          else String a cur :: others
      | [] => []
      end
  end.

(** [sep.join(parts)]. *)
Fixpoint join_with (sep : ascii) (parts : list string) : string :=
  match parts with
  | [] => ""
  | [p] => p
  | p :: rest => p +:+ String sep (join_with sep rest)
  end.

(** The value of a non-empty string of decimal digits. *)
Definition numeral (s : string) : option Z :=
  option_map Z.of_uint (NilZero.uint_of_string s).

(** Modelled from the spec: [get_seconds], the timestamp conversion that
    [gui/ui.py] imports and whose module is not part of the sources.  A
    timestamp is three decimal fields separated by colons; its value is
    hours * 3600 + minutes * 60 + seconds; anything else is a parsing
    error. *)
Definition get_seconds (timestamp : string) : exn + Z :=
  let malformed := inl (Exn ValueError ("malformed timestamp " +:+ timestamp)) in
  match split_on ":" timestamp with
  | [h; m; s] =>
      match numeral h, numeral m, numeral s with
      | Some hours, Some minutes, Some seconds =>
          inr (hours * 3600 + minutes * 60 + seconds)
      | _, _, _ => malformed
      end
  | _ => malformed
  end.

(** The status the interpreter ends with. *)
Definition exit_status {A} (r : result A) : Z :=
  match r with
  | Ok _ => 0
  | Raise e =>
      match exn_cls e with
      | SystemExit code => code
      | _ => 1
      end
  end.

(** ** The stages of [process], each under a name of its own *)

Section StageDefinitions.

Context (E : env).

(** Lines 91-93: the per-video directory. *)
Definition stage_directory (video_dir : string) : M unit :=
  dir_exists <- path_exists video_dir ;;
  if negb dir_exists then
    logging INFO ("Creating directory " +:+ video_dir) ;;;
    mkdir E video_dir
  else ret tt.

(** Lines 99-107: the download. *)
Definition stage_download (video_dir url : string) (names paths : artifacts)
    (resolution : string) : M unit :=
  have_video <- path_exists (video_stream paths) ;;
  have_audio <- path_exists (audio_stream paths) ;;
  if negb have_video || negb have_audio then
    download_youtube_resources E video_dir url (video_stream names)
      (audio_stream names) resolution ;;;
    logging INFO "Downloaded the video and audio tracks"
  else ret tt.

(** Lines 113-118: the merge. *)
Definition stage_merge (paths : artifacts) : M unit :=
  have_combined <- path_exists (combined_video paths) ;;
  if negb have_combined then
    join_resource E (video_stream paths) (audio_stream paths)
      (combined_video paths) ;;;
    logging INFO "Finished joining the video"
  else ret tt.

(** Lines 121-127: the trim. *)
Definition stage_trim (paths : artifacts) (start_time_in_sec end_time_in_sec : Z)
    : M unit :=
  have_trimmed <- path_exists (trimmed_video paths) ;;
  if negb have_trimmed then
    trim_resource E (combined_video paths) (trimmed_video paths)
      start_time_in_sec end_time_in_sec ;;;
    logging INFO "Finished trimming the video"
  else ret tt.

(** Lines 131-139: the Vimeo client. *)
Definition stage_connect (self_vimeo_config : option VimeoConfiguration)
    (paths : artifacts) : M unit :=
  token <- getattr self_vimeo_config "token" token ;;
  key <- getattr self_vimeo_config "key" key ;;
  secret <- getattr self_vimeo_config "secret" secret ;;
  call_lib E (VimeoClient token key secret) ;;;
  logging INFO
    ("Uploading video to Vimeo from path: " +:+ trimmed_video paths).

(** [process] from the download on. *)
Definition pipeline_from_download (self : Driver)
    (c : AppDirectoryConfiguration) (video_config : VideoConfiguration)
    (title : string) : M unit :=
  let paths := artifact_paths c video_config in
  stage_download (video_dir_of c video_config)
    (get_youtube_url E (video_id video_config))
    (artifact_names video_config) paths (resolution video_config) ;;;
  logging INFO
    "Now, going to try to magically merge the video and audio with trim" ;;;
  stage_merge paths ;;;
  stage_trim paths (start_time_in_sec video_config)
    (end_time_in_sec video_config) ;;;
  stage_connect (vimeo_config self) paths ;;;
  upload_and_attach E (trimmed_video paths) title (image_url video_config).

(** [process] from the merge on. *)
Definition pipeline_from_merge (self : Driver)
    (c : AppDirectoryConfiguration) (video_config : VideoConfiguration)
    (title : string) : M unit :=
  let paths := artifact_paths c video_config in
  logging INFO
    "Now, going to try to magically merge the video and audio with trim" ;;;
  stage_merge paths ;;;
  stage_trim paths (start_time_in_sec video_config)
    (end_time_in_sec video_config) ;;;
  stage_connect (vimeo_config self) paths ;;;
  upload_and_attach E (trimmed_video paths) title (image_url video_config).

(** [process] up to and including the trim: everything it does before
    it reads the credentials.  The directory configuration and the
    title are handed on. *)
Definition local_stages (directory : option AppDirectoryConfiguration)
    (video_config : VideoConfiguration)
    : M (AppDirectoryConfiguration * string) :=
  title <- resolve_title (video_title video_config) ;;
  c <- getattr directory "videos_dir" id ;;
  stage_directory (video_dir_of c video_config) ;;;
  let paths := artifact_paths c video_config in
  stage_download (video_dir_of c video_config)
    (get_youtube_url E (video_id video_config))
    (artifact_names video_config) paths (resolution video_config) ;;;
  logging INFO
    "Now, going to try to magically merge the video and audio with trim" ;;;
  stage_merge paths ;;;
  stage_trim paths (start_time_in_sec video_config)
    (end_time_in_sec video_config) ;;;
  ret (c, title).

(** [process] from the reading of the credentials on. *)
Definition remote_stages (credentials : option VimeoConfiguration)
    (video_config : VideoConfiguration)
    (ct : AppDirectoryConfiguration * string) : M unit :=
  let paths := artifact_paths ct.1 video_config in
  stage_connect credentials paths ;;;
  upload_and_attach E (trimmed_video paths) ct.2 (image_url video_config).

(** [process] as the sequence of its stages. *)
Definition staged_process (self : Driver) (video_config : VideoConfiguration)
    : M unit :=
  title <- resolve_title (video_title video_config) ;;
  c <- getattr (app_directory_config self) "videos_dir" id ;;
  stage_directory (video_dir_of c video_config) ;;;
  pipeline_from_download self c video_config title.

End StageDefinitions.

(** The place of an event in the pipeline: directory, download, merge,
    trim, client, upload, thumbnail. *)
Definition stage_of (e : event) : nat :=
  match e with
  | Invoked h | Returned h _ =>
      match h with
      | Hdownload_youtube_resources _ _ _ _ _ => 1
      | Hjoin_resource _ _ _ => 2
      | Htrim_resource _ _ _ _ => 3
      | Hupload_video_to_vimeo _ _ => 5
      end
  | Called c =>
      match c with
      | os_mkdir _ => 0
      | YouTube _ | streams_first _ _ | stream_download _ _ => 1
      | ffmpeg_run [_] _ _ => 3
      | ffmpeg_run _ _ _ => 2
      | VimeoClient _ _ _ => 4
      | client_upload _ _ _ | client_get_json _ => 5
      | client_upload_picture _ _ _ => 6
      end
  end%nat.

Definition is_mkdir (e : event) : bool :=
  match e with
  | Called (os_mkdir _) => true
  | _ => false
  end.

Definition is_client_upload (e : event) : bool :=
  match e with
  | Called (client_upload _ _ _) => true
  | _ => false
  end.

Definition is_stream_download (e : event) : bool :=
  match e with
  | Called (stream_download _ _) => true
  | _ => false
  end.

(** What a complete run of [download_youtube_resources] appends. *)
Definition download_events
    (download_path url video_name audio_name resolution : string)
    : list event :=
  [Invoked (Hdownload_youtube_resources download_path url video_name
              audio_name resolution);
   Called (YouTube url);
   Called (streams_first url (by_resolution resolution));
   Called (stream_download download_path video_name);
   Called (streams_first url only_audio);
   Called (stream_download download_path audio_name)].

(** What the library calls of a run of [process] are made on: the
    directory made is the per-video directory; the download client is
    opened on the URL of the video, asked for the stream of the
    requested resolution or for the audio stream, and each stream is
    saved into the per-video directory under its stream name; the
    upload disables comments; the thumbnail is the image of the
    request, activated. *)
Definition library_event (url : string) (c : AppDirectoryConfiguration)
    (video_config : VideoConfiguration) (e : event) : Prop :=
  let names := artifact_names video_config in
  let video_dir := video_dir_of c video_config in
  match e with
  | Called (os_mkdir path) => path = video_dir
  | Called (YouTube u) => u = url
  | Called (streams_first u q) =>
      u = url /\
      (q = by_resolution (resolution video_config) \/ q = only_audio)
  | Called (stream_download output_path filename) =>
      output_path = video_dir /\
      (filename = video_stream names \/ filename = audio_stream names)
  | Called (client_upload _ _ privacy_comments) =>
      privacy_comments = "nobody"
  | Called (client_upload_picture _ image activate) =>
      image_url video_config = Some image /\ activate = true
  | _ => True
  end.

(** An event of a run on the artifacts of the request: a helper
    invocation, an ffmpeg run or an upload as [stage_event] has it, and
    a library call as [library_event] has it. *)
Definition artifact_event (url : string) (c : AppDirectoryConfiguration)
    (video_config : VideoConfiguration) (e : event) : Prop :=
  stage_event url c video_config e /\ library_event url c video_config e.

(** ** Runs in pipeline order *)

(** A library call of stage [k]. *)
Definition call_of_stage (k : nat) (e : event) : Prop :=
  stage_of e = k /\ exists c, e = Called c.

(** [block k r l]: the events [l] all belong to stage [k], and if the
    result [r] is a normal return every helper invoked in [l] has
    returned in [l]. *)
Definition block {A} (k : nat) (r : result A) (l : list event) : Prop :=
  Forall (fun e => stage_of e = k) l /\
  ((exists a, r = Ok a) ->
   forall h, Invoked h ∈ l -> exists v, Returned h v ∈ l).

(** [orderly k r l]: the events [l] are in pipeline order, from stage
    [k] on, and a helper that was invoked has either returned or ended
    the run with an exception, nothing of a later stage following. *)
Definition orderly {A} (k : nat) (r : result A) (l : list event) : Prop :=
  StronglySorted le (map stage_of l) /\
  Forall (fun e => (k <= stage_of e)%nat) l /\
  forall h, Invoked h ∈ l ->
    (exists v, Returned h v ∈ l) \/
    ((exists e, r = Raise e) /\
     Forall (fun e => (stage_of e <= stage_of (Invoked h))%nat) l).

(** ** A sample run: cooperative libraries

    Streams exist, downloads and ffmpeg write their output file, the
    upload answers with a URI. *)
Module Sample.

Definition cooperative (c : call) (w : world) : outcome :=
  match c with
  | streams_first _ _ => Outcome ∅ (inr VObj)
  | stream_download d f => Outcome {[ path_join d f ]} (inr VNone)
  | ffmpeg_run _ o _ => Outcome {[ o ]} (inr VNone)
  | client_upload _ _ _ => Outcome ∅ (inr (VStr "/videos/1"))
  | client_get_json _ => Outcome ∅ (inr (VStr "in_progress"))
  | _ => Outcome ∅ (inr VNone)
  end.

Definition creds : VimeoConfiguration :=
  {| token := "t"; key := "k"; secret := "s" |}.

(** Modelled from the spec: [get_video_configuration] of [core/util.py],
    which is not part of the sources, as far as the timestamps go: both
    are converted to seconds, and a malformed one is a parsing error. *)
Definition build_request (url start_time end_time resolution : string)
    (title image : option string) : exn + VideoConfiguration :=
  match get_seconds start_time, get_seconds end_time with
  | inr s, inr e =>
      inr {| video_id := url; start_time_in_sec := s; end_time_in_sec := e;
             resolution := resolution; video_title := title;
             image_url := image |}
  | inl err, _ => inl err
  | _, inl err => inl err
  end.

Definition libs : env :=
  {| respond := cooperative;
     get_youtube_url := fun v => "https://www.youtube.com/watch?v=" +:+ v;
     get_vimeo_configuration := fun _ => inr creds;
     get_video_configuration := build_request |}.

(** A download client that fails while the request is built. *)
Definition unavailable : exn := Exn PytubeError "abc123 is unavailable".

Definition libs_unavailable : env :=
  {| respond := cooperative;
     get_youtube_url := get_youtube_url libs;
     get_vimeo_configuration := fun _ => inr creds;
     get_video_configuration := fun _ _ _ _ _ _ => inl unavailable |}.

Definition command_line : Args :=
  {| arg_url := "abc123"; arg_start := "00:00:10"; arg_end := "00:00:20";
     arg_config := "config.json"; arg_image := None;
     arg_resolution := "1080p"; arg_title := None |}.

(** The same command line with a start time that is no timestamp. *)
Definition malformed_command_line : Args :=
  {| arg_url := "abc123"; arg_start := "abc"; arg_end := "00:00:20";
     arg_config := "config.json"; arg_image := None;
     arg_resolution := "1080p"; arg_title := None |}.

Definition dirs : AppDirectoryConfiguration := {| videos_dir := "/v" |}.

Definition driver : Driver :=
  {| vimeo_config := Some creds; app_directory_config := Some dirs |}.

Definition request : VideoConfiguration :=
  {| video_id := "abc123"; start_time_in_sec := 10; end_time_in_sec := 20;
     resolution := "1080p"; video_title := None;
     image_url := Some "thumb.png" |}.

Definition fresh : world := World ∅ (Date 2024 3 7) [] [].

(** Local storage after a complete earlier run of [request]. *)
Definition rerun : world :=
  World (list_to_set
           ["/v/abc123"; "/v/abc123/video_stream_1080p.mp4";
            "/v/abc123/audio_stream_1080p.mp3";
            "/v/abc123/combined_1080p.mp4"; "/v/abc123/10_20_1080p.mp4"])
    (Date 2024 3 7) [] [].

(** A download client on which no stream has the requested resolution. *)
Definition no_such_resolution (c : call) (w : world) : outcome :=
  match c with
  | streams_first _ (by_resolution _) => Outcome ∅ (inr VNone)
  | _ => cooperative c w
  end.

Definition libs_no_such_resolution : env :=
  {| respond := no_such_resolution;
     get_youtube_url := get_youtube_url libs;
     get_vimeo_configuration := get_vimeo_configuration libs;
     get_video_configuration := get_video_configuration libs |}.

(** An ffmpeg whose merge run fails. *)
Definition merge_fails (c : call) (w : world) : outcome :=
  match c with
  | ffmpeg_run [_; _] _ _ =>
      Outcome ∅ (inl (Exn (OtherError "ffmpeg.Error") "ffmpeg error"))
  | _ => cooperative c w
  end.

Definition libs_merge_fails : env :=
  {| respond := merge_fails;
     get_youtube_url := get_youtube_url libs;
     get_vimeo_configuration := get_vimeo_configuration libs;
     get_video_configuration := get_video_configuration libs |}.

(** A Vimeo client whose upload call fails. *)
Definition upload_fails (c : call) (w : world) : outcome :=
  match c with
  | client_upload _ _ _ =>
      Outcome ∅ (inl (Exn VideoUploadFailure "upload failed"))
  | _ => cooperative c w
  end.

Definition libs_upload_fails : env :=
  {| respond := upload_fails;
     get_youtube_url := get_youtube_url libs;
     get_vimeo_configuration := get_vimeo_configuration libs;
     get_video_configuration := get_video_configuration libs |}.

(** A driver that was given no credentials. *)
Definition driver_without_credentials : Driver :=
  {| vimeo_config := None; app_directory_config := Some dirs |}.

(** Local storage with the directory and the video stream only. *)
Definition audio_missing : world :=
  World (list_to_set ["/v/abc123"; "/v/abc123/video_stream_1080p.mp4"])
    (Date 2024 3 7) [] [].

End Sample.

(** ** Rules of the program logic *)

#[export] Instance stable_True : Stable (fun _ => True).
Proof. by intros w w' _ _ _. Qed.

#[export] Instance stable_present (p : string) : Stable (fun w => p ∈ fs w).
Proof. intros w w' Hsub _ Hin. set_solver. Qed.

#[export] Instance stable_today (d : date) : Stable (fun w => today w = d).
Proof. intros w w' _ Hd Hw. congruence. Qed.

#[export] Instance stable_and (I J : world -> Prop) :
  Stable I -> Stable J -> Stable (fun w => I w /\ J w).
Proof. intros HI HJ w w' Hs Hd [? ?]. split; eauto. Qed.

Lemma emitted_app {A} (m : M A) (w : world) (l : list event) :
  trace (m w).2 = trace w ++ l -> emitted m w = l.
Proof. unfold emitted. intros ->. apply drop_app_length. Qed.

Lemma emits_emitted {A} (I : world -> Prop) (m : M A) Phi w :
  emits I m Phi -> I w -> Phi (m w).1 (emitted m w).
Proof.
  intros Hm Hw. destruct (Hm w Hw) as (_ & l & Hl & Hphi).
  by rewrite (emitted_app _ _ _ Hl).
Qed.

Lemma emits_weaken {A} (I : world -> Prop) (m : M A)
    (Phi Psi : result A -> list event -> Prop) :
  (forall r l, Phi r l -> Psi r l) -> emits I m Phi -> emits I m Psi.
Proof.
  intros Himp Hm w Hw. destruct (Hm w Hw) as (HI & l & Hl & Hphi).
  split; [done|]. exists l. auto.
Qed.

Lemma emits_bind {A B} (I : world -> Prop) (m : M A) (f : A -> M B)
    (Phi1 : result A -> list event -> Prop)
    (Phi2 : A -> result B -> list event -> Prop) :
  emits I m Phi1 ->
  (forall a, emits I (f a) (Phi2 a)) ->
  emits I (bind m f)
    (fun r l => exists l1 l2, l = l1 ++ l2 /\
       ((exists a, Phi1 (Ok a) l1 /\ Phi2 a r l2) \/
        (exists e, Phi1 (Raise e) l1 /\ r = Raise e /\ l2 = []))).
Proof.
  intros Hm Hf w Hw. unfold bind.
  destruct (Hm w Hw) as (HI & l1 & Hl1 & Hphi1).
  destruct (m w) as [[a|e] w1]; simpl in *.
  - destruct (Hf a w1 HI) as (HI2 & l2 & Hl2 & Hphi2).
    split; [done|]. exists (l1 ++ l2). split.
    + by rewrite Hl2, Hl1, app_assoc.
    + exists l1, l2. split; [done|]. left. eauto.
  - split; [done|]. exists l1. split; [done|].
    exists l1, []. split; [by rewrite app_nil_r|]. right. eauto.
Qed.

(** Sequencing after a prefix whose events all satisfy [P]: enough that
    [Phi] ignores such a prefix and holds of a run that stops in it. *)
Lemma emits_after {A B} (I : world -> Prop) (P : event -> Prop)
    (Q : A -> Prop) (m : M A) (f : A -> M B)
    (Phi : result B -> list event -> Prop) :
  (forall e l, Forall P l -> Phi (Raise e) l) ->
  (forall r l1 l2, Forall P l1 -> Phi r l2 -> Phi r (l1 ++ l2)) ->
  keeps I P m Q ->
  (forall a, Q a -> emits I (f a) Phi) ->
  emits I (bind m f) Phi.
Proof.
  intros Hraise Hpre Hm Hf w Hw. unfold bind.
  destruct (Hm w Hw) as (HI & l1 & Hl1 & HP & HQ).
  destruct (m w) as [[a|e] w1]; simpl in *.
  - destruct (Hf a (HQ a eq_refl) w1 HI) as (HI2 & l2 & Hl2 & Hphi2).
    split; [done|]. exists (l1 ++ l2). split.
    + by rewrite Hl2, Hl1, app_assoc.
    + by apply Hpre.
  - split; [done|]. exists l1. split; [done|]. by apply Hraise.
Qed.

Section Rules.

Context (E : env) (I : world -> Prop) (P : event -> Prop) `{!Stable I}.

Lemma keeps_weaken {A} (m : M A) (Q R : A -> Prop) :
  (forall a, Q a -> R a) -> keeps I P m Q -> keeps I P m R.
Proof.
  intros HQR. apply emits_weaken. intros r l [HP HQ]. split; [done|].
  intros a Ha. eauto.
Qed.

Lemma keeps_ret {A} (a : A) (Q : A -> Prop) : Q a -> keeps I P (ret a) Q.
Proof.
  intros HQ w Hw. split; [done|]. exists []. simpl.
  split; [by rewrite app_nil_r|]. split; [constructor|]. by intros ? [= <-].
Qed.

Lemma keeps_raise {A} (e : exn) (Q : A -> Prop) : keeps I P (raise e) Q.
Proof.
  intros w Hw. split; [done|]. exists []. simpl.
  split; [by rewrite app_nil_r|]. split; [constructor|]. by intros ? [=].
Qed.

Lemma keeps_bind {A B} (m : M A) (f : A -> M B) (Q : A -> Prop)
    (R : B -> Prop) :
  keeps I P m Q -> (forall a, Q a -> keeps I P (f a) R) ->
  keeps I P (bind m f) R.
Proof.
  intros Hm Hf. eapply emits_after; [| |exact Hm|exact Hf].
  - intros e l Hl. split; [done|]. by intros ? [=].
  - intros r l1 l2 Hl1 [Hl2 HR]. split; [|done]. by apply Forall_app.
Qed.

Lemma keeps_seq {A B} (m : M A) (f : A -> M B) (Q : A -> Prop)
    (R : B -> Prop) :
  keeps I P m Q -> (forall a, keeps I P (f a) R) -> keeps I P (bind m f) R.
Proof. intros Hm Hf. eapply keeps_bind; [exact Hm|]. intros a _. apply Hf. Qed.

Lemma keeps_try_except {A} (body : M A) (catches : exn -> bool)
    (handler : exn -> M A) (Q : A -> Prop) :
  keeps I P body Q -> (forall e, keeps I P (handler e) Q) ->
  keeps I P (try_except body catches handler) Q.
Proof.
  intros Hb Hh w Hw. unfold try_except.
  destruct (Hb w Hw) as (HI & l1 & Hl1 & HP & HQ).
  destruct (body w) as [[a|e] w1]; simpl in *.
  - split; [done|]. exists l1. eauto.
  - destruct (catches e).
    + destruct (Hh e w1 HI) as (HI2 & l2 & Hl2 & HP2 & HQ2).
      split; [done|]. exists (l1 ++ l2). split.
      * by rewrite Hl2, Hl1, app_assoc.
      * split; [by apply Forall_app|done].
    + split; [done|]. exists l1. eauto.
Qed.

Lemma keeps_of_sum {A} (r : exn + A) : keeps I P (of_sum r) (fun _ => True).
Proof. destruct r; [apply keeps_raise|by apply keeps_ret]. Qed.

Lemma keeps_getattr {A B} (obj : option A) (attr : string) (f : A -> B) :
  keeps I P (getattr obj attr f) (fun _ => True).
Proof. destruct obj; [by apply keeps_ret|apply keeps_raise]. Qed.

Lemma keeps_add_str (v : value) (s : string) :
  keeps I P (add_str v s) (fun _ => True).
Proof. destruct v; first [by apply keeps_ret|apply keeps_raise]. Qed.

Lemma keeps_record (e : event) : P e -> keeps I P (record e) (fun _ => True).
Proof.
  intros He w Hw. split.
  - by apply (stable w).
  - exists [e]. simpl. split; [done|]. split; [by repeat constructor|done].
Qed.

Lemma keeps_logging (l : level) (msg : string) :
  keeps I P (logging l msg) (fun _ => True).
Proof.
  intros w Hw. split.
  - by apply (stable w).
  - exists []. simpl. split; [by rewrite app_nil_r|]. split; [constructor|done].
Qed.

Lemma keeps_path_exists (p : string) :
  keeps I P (path_exists p) (fun _ => True).
Proof.
  intros w Hw. split; [done|]. exists []. simpl.
  split; [by rewrite app_nil_r|]. split; [constructor|done].
Qed.

Lemma keeps_path_exists_present (p : string) :
  (forall w, I w -> p ∈ fs w) ->
  keeps I P (path_exists p) (fun b => b = true).
Proof.
  intros Hin w Hw. split; [done|]. exists []. simpl.
  split; [by rewrite app_nil_r|]. split; [constructor|].
  intros a [= <-]. apply bool_decide_eq_true. auto.
Qed.

Lemma keeps_date_today (d : date) :
  (forall w, I w -> today w = d) ->
  keeps I P date_today (fun x => x = d).
Proof.
  intros Hd w Hw. split; [done|]. exists []. simpl.
  split; [by rewrite app_nil_r|]. split; [constructor|].
  intros a [= <-]. auto.
Qed.

Lemma keeps_call_lib (c : call) :
  P (Called c) -> keeps I P (call_lib E c) (fun _ => True).
Proof.
  intros Hc w Hw. unfold call_lib.
  assert (I (World (fs w ∪ created (respond E c w)) (today w)
               (trace w ++ [Called c]) (log w))) as HI.
  { apply (stable w); simpl; [set_solver|done|done]. }
  destruct (answer (respond E c w)); simpl;
    (split; [done|]); exists [Called c];
    (split; [done|]); (split; [by repeat constructor|done]).
Qed.

Lemma keeps_mkdir (path : string) :
  P (Called (os_mkdir path)) -> keeps I P (mkdir E path) (fun _ => True).
Proof.
  intros Hc w Hw. unfold mkdir.
  destruct (keeps_call_lib (os_mkdir path) Hc w Hw)
    as (HI & l & Hl & HP & _).
  destruct (call_lib E (os_mkdir path) w) as [[v|e] w1]; simpl in *.
  - split.
    + apply (stable w1); simpl; [set_solver|done|done].
    + exists l. eauto.
  - split; [done|]. exists l. split; [done|]. split; [done|]. by intros ? [=].
Qed.

Lemma keeps_spied (h : helper) (body : M value) :
  P (Invoked h) -> (forall v, P (Returned h v)) ->
  keeps I P body (fun _ => True) ->
  keeps I P (spied h body) (fun _ => True).
Proof.
  intros Hi Hr Hb. unfold spied.
  eapply keeps_seq; [by apply keeps_record|]. intros _.
  eapply keeps_seq; [exact Hb|]. intros v.
  eapply keeps_seq; [by apply keeps_record|]. intros _.
  by apply keeps_ret.
Qed.

End Rules.

Section Stages.

Context (E : env) (I : world -> Prop) (P : event -> Prop) `{!Stable I}.

Lemma keeps_path_exists_guard (p : string) :
  keeps I P (path_exists p)
    (fun b => (forall w, I w -> p ∈ fs w) -> b = true).
Proof.
  intros w Hw. split; [done|]. exists []. simpl.
  split; [by rewrite app_nil_r|]. split; [constructor|].
  intros a [= <-] Hin. apply bool_decide_eq_true. auto.
Qed.

Lemma keeps_download (stream : value) (output_path filename : string) :
  P (Called (stream_download output_path filename)) ->
  keeps I P (download E stream output_path filename) (fun _ => True).
Proof.
  intros Hc. destruct stream; first [apply keeps_raise|by apply keeps_call_lib; [exact _|]].
Qed.

Lemma keeps_download_youtube_resources
    (download_path url video_name audio_name resolution : string) :
  P (Invoked (Hdownload_youtube_resources download_path url video_name
                audio_name resolution)) ->
  P (Called (YouTube url)) ->
  (forall q, P (Called (streams_first url q))) ->
  P (Called (stream_download download_path video_name)) ->
  P (Called (stream_download download_path audio_name)) ->
  (forall v, P (Returned (Hdownload_youtube_resources download_path url
                            video_name audio_name resolution) v)) ->
  keeps I P
    (download_youtube_resources E download_path url video_name audio_name
       resolution)
    (fun _ => True).
Proof.
  intros Hinv Hyt Hq Hdv Hda HR. unfold download_youtube_resources.
  apply keeps_spied; [exact _|done|done|].
  apply keeps_try_except.
  - eapply keeps_seq; [by apply keeps_call_lib; [exact _|]|]. intros _.
    eapply keeps_seq; [by apply keeps_call_lib; [exact _|]|]. intros video.
    eapply keeps_seq; [by apply keeps_download|]. intros _.
    eapply keeps_seq; [by apply keeps_call_lib; [exact _|]|]. intros audio.
    eapply keeps_seq; [by apply keeps_download|]. intros _.
    by apply keeps_ret.
  - intros e. eapply keeps_seq; [apply keeps_logging; exact _|]. intros _.
    by apply keeps_raise.
Qed.

Lemma keeps_join_resource (video_path audio_path output_path : string) :
  P (Invoked (Hjoin_resource video_path audio_path output_path)) ->
  P (Called (ffmpeg_run [video_path; audio_path] output_path
               [("vcodec", VStr "copy")])) ->
  (forall v, P (Returned (Hjoin_resource video_path audio_path output_path) v)) ->
  keeps I P (join_resource E video_path audio_path output_path)
    (fun _ => True).
Proof.
  intros Hinv Hrun HR. unfold join_resource.
  apply keeps_spied; [exact _|done|done|].
  eapply keeps_seq; [by apply keeps_call_lib; [exact _|]|]. intros _.
  by apply keeps_ret.
Qed.

Lemma keeps_trim_resource (input_path output_path : string) (s e : Z) :
  P (Invoked (Htrim_resource input_path output_path s e)) ->
  P (Called (ffmpeg_run [input_path] output_path
               [("ss", VInt s); ("t", VInt e); ("vcodec", VStr "copy");
                ("acodec", VStr "copy")])) ->
  (forall v, P (Returned (Htrim_resource input_path output_path s e) v)) ->
  keeps I P (trim_resource E input_path output_path s e) (fun _ => True).
Proof.
  intros Hinv Hrun HR. unfold trim_resource.
  apply keeps_spied; [exact _|done|done|].
  eapply keeps_seq; [by apply keeps_call_lib; [exact _|]|]. intros _.
  by apply keeps_ret.
Qed.

(** A stage behind its existence check emits nothing outside [P] when
    the invariant says the artifact is there, or when the stage itself
    stays within [P]. *)
Lemma keeps_guarded (present : Prop) (b : bool) (stage : M value)
    (msg : string) :
  (present -> b = true) ->
  present \/ keeps I P stage (fun _ => True) ->
  keeps I P
    (if negb b then stage ;;; logging INFO msg else ret tt)
    (fun _ => True).
Proof.
  intros Hb [Hp|Hs].
  - rewrite (Hb Hp). simpl. by apply keeps_ret.
  - destruct b; simpl; [by apply keeps_ret|].
    eapply keeps_seq; [exact Hs|]. intros _. apply keeps_logging; exact _.
Qed.

Lemma emits_process (self : Driver) (video_config : VideoConfiguration)
    (c : AppDirectoryConfiguration) (Qt : string -> Prop)
    (Phi : result unit -> list event -> Prop) :
  let paths := artifact_paths c video_config in
  let names := artifact_names video_config in
  let video_dir := video_dir_of c video_config in
  app_directory_config self = Some c ->
  (forall e l, Forall P l -> Phi (Raise e) l) ->
  (forall r l1 l2, Forall P l1 -> Phi r l2 -> Phi r (l1 ++ l2)) ->
  P (Called (os_mkdir video_dir)) ->
  ((forall w, I w -> video_stream paths ∈ fs w) /\
   (forall w, I w -> audio_stream paths ∈ fs w) \/
   keeps I P
     (download_youtube_resources E video_dir
        (get_youtube_url E (video_id video_config)) (video_stream names)
        (audio_stream names) (resolution video_config))
     (fun _ => True)) ->
  ((forall w, I w -> combined_video paths ∈ fs w) \/
   keeps I P
     (join_resource E (video_stream paths) (audio_stream paths)
        (combined_video paths))
     (fun _ => True)) ->
  ((forall w, I w -> trimmed_video paths ∈ fs w) \/
   keeps I P
     (trim_resource E (combined_video paths) (trimmed_video paths)
        (start_time_in_sec video_config) (end_time_in_sec video_config))
     (fun _ => True)) ->
  (forall t k s, P (Called (VimeoClient t k s))) ->
  keeps I P (resolve_title (video_title video_config)) Qt ->
  (forall title, Qt title ->
     emits I
       (upload_and_attach E (trimmed_video paths) title
          (image_url video_config))
       Phi) ->
  emits I (process E self video_config) Phi.
Proof.
  intros paths names video_dir Hc Hraise Hpre Hmk Hdl Hjoin Htrim Hcl Ht Hup.
  unfold process. rewrite Hc.
  pose proof Hraise as Hr. pose proof Hpre as Hp.
  eapply (emits_after I P); [exact Hr|exact Hp|exact Ht|].
  intros title Htitle.
  simpl getattr.
  eapply (emits_after I P);
    [exact Hr|exact Hp|apply (keeps_ret I P (id c) (fun x => x = c) eq_refl)|].
  intros c' ->.
  eapply (emits_after I P);
    [exact Hr|exact Hp|apply (keeps_path_exists I P)|].
  intros dir_exists _.
  eapply (emits_after I P); [exact Hr|exact Hp| |].
  { instantiate (1 := fun _ => True). destruct dir_exists; simpl.
    - by apply keeps_ret.
    - eapply keeps_seq; [apply keeps_logging; exact _|]. intros _.
      apply keeps_mkdir; [exact _|exact Hmk]. }
  intros _ _.
  eapply (emits_after I P);
    [exact Hr|exact Hp|apply keeps_path_exists_guard|].
  intros have_video Hv.
  eapply (emits_after I P);
    [exact Hr|exact Hp|apply keeps_path_exists_guard|].
  intros have_audio Ha.
  eapply (emits_after I P); [exact Hr|exact Hp| |].
  { instantiate (1 := fun _ => True). destruct Hdl as [[Hpv Hpa]|Hdl].
    - rewrite (Hv Hpv), (Ha Hpa). simpl. by apply keeps_ret.
    - destruct (negb have_video || negb have_audio); [|by apply keeps_ret].
      eapply keeps_seq; [exact Hdl|]. intros _.
      apply keeps_logging; exact _. }
  intros _ _.
  eapply (emits_after I P);
    [exact Hr|exact Hp|apply keeps_logging; exact _|].
  intros _ _.
  eapply (emits_after I P);
    [exact Hr|exact Hp|apply keeps_path_exists_guard|].
  intros have_combined Hcomb.
  eapply (emits_after I P);
    [exact Hr|exact Hp|by apply (keeps_guarded _ _ _ _ Hcomb)|].
  intros _ _.
  eapply (emits_after I P);
    [exact Hr|exact Hp|apply keeps_path_exists_guard|].
  intros have_trimmed Htr.
  eapply (emits_after I P);
    [exact Hr|exact Hp|by apply (keeps_guarded _ _ _ _ Htr)|].
  intros _ _.
  eapply (emits_after I P);
    [exact Hr|exact Hp|apply (keeps_getattr I P)|]. intros t _.
  eapply (emits_after I P);
    [exact Hr|exact Hp|apply (keeps_getattr I P)|]. intros k _.
  eapply (emits_after I P);
    [exact Hr|exact Hp|apply (keeps_getattr I P)|]. intros s _.
  eapply (emits_after I P);
    [exact Hr|exact Hp|apply keeps_call_lib; [exact _|apply Hcl]|].
  intros _ _.
  eapply (emits_after I P);
    [exact Hr|exact Hp|apply keeps_logging; exact _|].
  intros _ _.
  by apply Hup.
Qed.

End Stages.

(** ** The upload and thumbnail steps, event by event *)

Section Upload.

Context (E : env).

Lemma upload_video_to_vimeo_trace (video_path title : string) (w : world) :
  exists l,
    trace (upload_video_to_vimeo E video_path title w).2 = trace w ++ l /\
    upload_events video_path title
      (upload_video_to_vimeo E video_path title w).1 l.
Proof.
  unfold upload_video_to_vimeo, spied, bind, try_except, call_lib, record,
    logging, add_str, ret, raise, upload_events.
  simpl.
  destruct (answer (respond E (client_upload video_path title "nobody") _))
    as [e|v]; simpl.
  - destruct (is_VideoUploadFailure e); simpl; rewrite <- !app_assoc; simpl;
      eexists; (split; [reflexivity|]); by left.
  - destruct v as [|u|n|]; simpl;
      try (rewrite <- !app_assoc; simpl; eexists; (split; [reflexivity|]);
           by left).
    destruct (answer (respond E (client_get_json _) _)) as [e|st]; simpl;
      rewrite <- !app_assoc; simpl; eexists; (split; [reflexivity|]).
    + right. by exists u.
    + by exists u.
Qed.

Lemma after_upload_trace (uri : value) (image : option string) (w : world) :
  let m :=
    ((if is_not_None uri && truthy image then
        call_lib E (client_upload_picture uri (default "" image) true) ;;;
        ret tt
      else ret tt) ;;;
     logging INFO
       ("Vimeo URL " +:+ dquote +:+ "https://vimeo.com/[video_id]" +:+
        dquote +:+ " where the video_id is the number in the URI" +:+
        newline) ;;;
     logging INFO ("This is the link supplied to the website" +:+ newline))
  in
  exists l, trace (m w).2 = trace w ++ l /\ attach_events uri image l.
Proof.
  unfold attach_events, bind, call_lib, logging, ret. simpl.
  destruct (is_not_None uri && truthy image); simpl.
  - destruct (answer (respond E _ _)); simpl; eexists; by split.
  - exists []. by rewrite app_nil_r.
Qed.

Lemma upload_and_attach_trace (video_path title : string)
    (image : option string) (w : world) :
  exists l,
    trace (upload_and_attach E video_path title image w).2 = trace w ++ l /\
    tail_events video_path title image l.
Proof.
  unfold upload_and_attach, tail_events.
  unfold bind at 1.
  destruct (upload_video_to_vimeo_trace video_path title w)
    as (lu & Hlu & Hup).
  destruct (upload_video_to_vimeo E video_path title w) as [[uri|e] w1];
    simpl in *.
  - destruct (after_upload_trace uri image w1) as (la & Hla & Hat).
    simpl in Hla. exists (lu ++ la). split.
    + by rewrite Hla, Hlu, app_assoc.
    + exists (Ok uri), lu. split; [done|]. by exists la.
  - exists lu. split; [done|]. by exists (Raise e), lu.
Qed.

End Upload.

Section Pipeline.

Context (E : env) (I : world -> Prop) `{!Stable I}.

Lemma keeps_resolve_title (P : event -> Prop) (d : date)
    (title : option string) :
  (forall w, I w -> today w = d) ->
  keeps I P (resolve_title title) (fun t => t = title_for d title).
Proof.
  intros Hd. unfold resolve_title, title_for.
  assert (keeps I P (d' <- date_today ;; ret (default_title d'))
            (fun t => t = default_title d)) as Hdef.
  { eapply keeps_bind; [by apply keeps_date_today|].
    intros d' ->. by apply keeps_ret. }
  destruct title as [t|]; [|exact Hdef].
  destruct (bool_decide (t = "")); [exact Hdef|by apply keeps_ret].
Qed.

Lemma keeps_resolve_title_any (P : event -> Prop) (title : option string) :
  keeps I P (resolve_title title) (fun _ => True).
Proof.
  unfold resolve_title.
  assert (keeps I P (d' <- date_today ;; ret (default_title d'))
            (fun _ => True)) as Hdef.
  { intros w Hw. split; [done|]. exists []. simpl.
    split; [by rewrite app_nil_r|]. split; [constructor|done]. }
  destruct title as [t|]; [|exact Hdef].
  destruct (bool_decide (t = "")); [exact Hdef|by apply keeps_ret].
Qed.

End Pipeline.

Section Runs.

Context (E : env) (I : world -> Prop) `{!Stable I}.

Lemma upload_and_attach_inv (video_path title : string)
    (image : option string) (w : world) :
  I w -> I (upload_and_attach E video_path title image w).2.
Proof.
  intros Hw.
  assert (keeps I (fun _ => True)
            (upload_and_attach E video_path title image) (fun _ => True))
    as Hk; [|by destruct (Hk w Hw)].
  unfold upload_and_attach, upload_video_to_vimeo.
  eapply keeps_seq.
  - apply keeps_spied; [exact _|done|done|].
    eapply keeps_seq.
    + apply keeps_try_except; [by apply keeps_call_lib|].
      intros e. eapply keeps_seq; [apply keeps_logging; exact _|]. intros _.
      eapply keeps_seq; [apply keeps_logging; exact _|]. intros _.
      apply keeps_raise.
    + intros uri. eapply keeps_seq; [apply keeps_add_str|]. intros q.
      eapply keeps_seq; [by apply keeps_call_lib|]. intros st.
      eapply keeps_seq; [apply keeps_logging; exact _|]. intros _.
      by apply keeps_ret.
  - intros uri. eapply keeps_seq.
    + instantiate (1 := fun _ => True).
      destruct (is_not_None uri && truthy image); [|by apply keeps_ret].
      eapply keeps_seq; [by apply keeps_call_lib|]. intros _.
      by apply keeps_ret.
    + intros _. eapply keeps_seq; [apply keeps_logging; exact _|]. intros _.
      apply keeps_logging; exact _.
Qed.

Lemma emits_upload_and_attach (video_path title : string)
    (image : option string) :
  emits I (upload_and_attach E video_path title image)
    (fun _ l => tail_events video_path title image l).
Proof.
  intros w Hw. split; [by apply upload_and_attach_inv|].
  apply upload_and_attach_trace.
Qed.

(** [process] with a directory configuration, reduced to its stages. *)
Lemma process_emits (P : event -> Prop) (self : Driver)
    (video_config : VideoConfiguration) (c : AppDirectoryConfiguration)
    (Qt : string -> Prop) (Phi : result unit -> list event -> Prop) :
  let paths := artifact_paths c video_config in
  let names := artifact_names video_config in
  let video_dir := video_dir_of c video_config in
  app_directory_config self = Some c ->
  (forall e l, Forall P l -> Phi (Raise e) l) ->
  (forall r l1 l2, Forall P l1 -> Phi r l2 -> Phi r (l1 ++ l2)) ->
  (forall e,
     is_download e = false -> is_join e = false -> is_trim e = false ->
     is_upload e = false -> is_upload_picture e = false ->
     is_collaborator e = true -> P e) ->
  ((forall w, I w -> video_stream paths ∈ fs w) /\
   (forall w, I w -> audio_stream paths ∈ fs w) \/
   (forall e, is_download e = true -> P e) /\
   (forall v,
      P (Returned
           (Hdownload_youtube_resources video_dir
              (get_youtube_url E (video_id video_config))
              (video_stream names) (audio_stream names)
              (resolution video_config)) v))) ->
  ((forall w, I w -> combined_video paths ∈ fs w) \/
   (forall e, is_join e = true -> P e) /\
   (forall v,
      P (Returned
           (Hjoin_resource (video_stream paths) (audio_stream paths)
              (combined_video paths)) v))) ->
  ((forall w, I w -> trimmed_video paths ∈ fs w) \/
   (forall e, is_trim e = true -> P e) /\
   (forall v,
      P (Returned
           (Htrim_resource (combined_video paths) (trimmed_video paths)
              (start_time_in_sec video_config)
              (end_time_in_sec video_config)) v))) ->
  keeps I P (resolve_title (video_title video_config)) Qt ->
  (forall title r l, Qt title ->
     tail_events (trimmed_video paths) title (image_url video_config) l ->
     Phi r l) ->
  emits I (process E self video_config) Phi.
Proof.
  intros paths names video_dir Hc Hraise Hpre Hother Hdl Hjoin Htrim Ht Htail.
  eapply (emits_process E I P); try eassumption.
  - by apply Hother.
  - destruct Hdl as [Hdl|[Hdl1 Hdl2]]; [by left|right].
    apply keeps_download_youtube_resources; try done;
      intros; by apply Hdl1.
  - destruct Hjoin as [Hj|[Hj1 Hj2]]; [by left|right].
    apply keeps_join_resource; try done; by apply Hj1.
  - destruct Htrim as [Hj|[Hj1 Hj2]]; [by left|right].
    apply keeps_trim_resource; try done; by apply Hj1.
  - intros t k s. by apply Hother.
  - intros title Htitle. eapply emits_weaken;
      [|apply emits_upload_and_attach].
    intros r l Hl. by eapply Htail.
Qed.

End Runs.

(** Every event of the last part is one of these. *)
Lemma tail_events_Forall (P : event -> Prop) (video_path title : string)
    (image : option string) (l : list event) :
  P (Invoked (Hupload_video_to_vimeo video_path title)) ->
  P (Called (client_upload video_path title "nobody")) ->
  (forall v, P (Returned (Hupload_video_to_vimeo video_path title) v)) ->
  (forall u, P (Called (client_get_json u))) ->
  (forall u i a, P (Called (client_upload_picture u i a))) ->
  tail_events video_path title image l -> Forall P l.
Proof.
  intros Hinv Hup Hret Hget Hpic (r & lu & Hlu & Hl).
  assert (Forall P lu) as Hflu.
  { destruct r as [v|e]; simpl in Hlu.
    - destruct Hlu as (u & -> & ->). repeat constructor; auto.
    - destruct Hlu as [->|(u & ->)]; repeat constructor; auto. }
  destruct r as [v|e]; [|by subst].
  destruct Hl as (la & Hla & ->). apply Forall_app. split; [done|].
  unfold attach_events in Hla. subst la.
  destruct (is_not_None v && truthy image); repeat constructor; auto.
Qed.

Lemma call_count_none (p : event -> bool) (l : list event) :
  Forall (fun e => p e = false) l -> call_count p l = 0%nat.
Proof.
  unfold call_count. induction 1 as [|e l He _ IH]; [done|].
  rewrite filter_cons_False; [done|]. by rewrite He.
Qed.

(** A stage whose events [p] recognises is not entered when the run
    starts with its artifacts on local storage. *)
Lemma process_never (E : env) (I : world -> Prop) `{!Stable I}
    (p : event -> bool) (self : Driver) (video_config : VideoConfiguration)
    (c : AppDirectoryConfiguration) (w : world) :
  let paths := artifact_paths c video_config in
  app_directory_config self = Some c ->
  (forall e, p e = true ->
     is_download e = true \/ is_join e = true \/ is_trim e = true) ->
  (forall e, is_upload e = true -> p e = false) ->
  ((forall w, I w -> video_stream paths ∈ fs w) /\
   (forall w, I w -> audio_stream paths ∈ fs w) \/
   (forall e, is_download e = true -> p e = false)) ->
  ((forall w, I w -> combined_video paths ∈ fs w) \/
   (forall e, is_join e = true -> p e = false)) ->
  ((forall w, I w -> trimmed_video paths ∈ fs w) \/
   (forall e, is_trim e = true -> p e = false)) ->
  I w ->
  call_count p (emitted (process E self video_config) w) = 0%nat.
Proof.
  intros paths Hc Hp Hup Hdl Hjoin Htrim Hw.
  assert (forall e, is_download e = false -> is_join e = false ->
            is_trim e = false -> p e = false) as Hnot.
  { intros e H1 H2 H3. destruct (p e) eqn:Hpe; [|done].
    destruct (Hp e Hpe) as [?|[?|?]]; congruence. }
  apply call_count_none.
  apply (emits_emitted I _ (fun _ l => Forall (fun e => p e = false) l));
    [|done].
  eapply (process_emits E I (fun e => p e = false)) with (Qt := fun _ => True);
    try eassumption.
  - done.
  - intros _ l1 l2 H1 H2. by apply Forall_app.
  - intros e H1 H2 H3 _ _ _. by apply Hnot.
  - destruct Hdl as [Hdl|Hdl]; [by left|right]. split; [done|].
    intros v. by apply Hnot.
  - destruct Hjoin as [Hj|Hj]; [by left|right]. split; [done|].
    intros v. by apply Hnot.
  - destruct Htrim as [Hj|Hj]; [by left|right]. split; [done|].
    intros v. by apply Hnot.
  - by apply keeps_resolve_title_any.
  - intros title _ l _ Hl. eapply tail_events_Forall; [..|exact Hl]; simpl.
    + by apply Hup.
    + by apply Hup.
    + intros v. by apply Hnot.
    + intros u. by apply Hnot.
    + intros u i a. by apply Hnot.
Qed.

(** Facts about the event classes, by cases on the event. *)
Ltac event_cases :=
  let e := fresh "e" in
  intros e; destruct e as [[]|[] ?|[]]; simpl; try done;
  repeat case_match; simpl; try done; auto.

Lemma process_skips_download (E : env) (self : Driver)
    (video_config : VideoConfiguration) (c : AppDirectoryConfiguration)
    (w : world) :
  app_directory_config self = Some c ->
  video_stream (artifact_paths c video_config) ∈ fs w ->
  audio_stream (artifact_paths c video_config) ∈ fs w ->
  call_count is_download (emitted (process E self video_config) w) = 0%nat.
Proof.
  intros Hc Hv Ha.
  apply (process_never E
           (fun w => video_stream (artifact_paths c video_config) ∈ fs w /\
                     audio_stream (artifact_paths c video_config) ∈ fs w)
           is_download self video_config c w); try done.
  - intros e He. by left.
  - event_cases.
  - left. split; by intros w' [? ?].
  - right. event_cases.
  - right. event_cases.
Qed.

Lemma process_skips_join (E : env) (self : Driver)
    (video_config : VideoConfiguration) (c : AppDirectoryConfiguration)
    (w : world) :
  app_directory_config self = Some c ->
  combined_video (artifact_paths c video_config) ∈ fs w ->
  call_count is_join (emitted (process E self video_config) w) = 0%nat.
Proof.
  intros Hc Hin.
  apply (process_never E
           (fun w => combined_video (artifact_paths c video_config) ∈ fs w)
           is_join self video_config c w); try done.
  - intros e He. right. by left.
  - event_cases.
  - right. event_cases.
  - by left.
  - right. event_cases.
Qed.

Lemma process_skips_trim (E : env) (self : Driver)
    (video_config : VideoConfiguration) (c : AppDirectoryConfiguration)
    (w : world) :
  app_directory_config self = Some c ->
  trimmed_video (artifact_paths c video_config) ∈ fs w ->
  call_count is_trim (emitted (process E self video_config) w) = 0%nat.
Proof.
  intros Hc Hin.
  apply (process_never E
           (fun w => trimmed_video (artifact_paths c video_config) ∈ fs w)
           is_trim self video_config c w); try done.
  - intros e He. right. by right.
  - event_cases.
  - right. event_cases.
  - right. event_cases.
  - by left.
Qed.

(** Without a directory configuration [process] stops at line 90, with
    the world as it found it. *)
Lemma process_no_directory (E : env) (v : option VimeoConfiguration)
    (video_config : VideoConfiguration) (w : world) :
  process E {| vimeo_config := v; app_directory_config := None |}
    video_config w =
  (Raise (Exn AttributeError
            "'NoneType' object has no attribute 'videos_dir'"), w).
Proof.
  unfold process, bind, resolve_title. simpl.
  destruct (video_title video_config) as [t|]; [|done].
  by destruct (bool_decide (t = "")).
Qed.

Lemma emitted_unchanged {A} (m : M A) (w : world) (r : result A) :
  m w = (r, w) -> emitted m w = [].
Proof. intros Hm. unfold emitted. rewrite Hm. simpl. apply drop_all. Qed.

Lemma process_no_directory_emitted (E : env) (self : Driver)
    (video_config : VideoConfiguration) (w : world) :
  app_directory_config self = None ->
  emitted (process E self video_config) w = [] /\
  exists e, (process E self video_config w).1 = Raise e.
Proof.
  intros Hnone. destruct self as [v d]. simpl in Hnone. subst d.
  split.
  - eapply emitted_unchanged, process_no_directory.
  - rewrite process_no_directory. by eexists.
Qed.

(** The title of every upload call of a run, and that a run which
    returns has made one. *)
Lemma process_upload_title (E : env) (self : Driver)
    (video_config : VideoConfiguration) (w : world) :
  let title := title_for (today w) (video_title video_config) in
  let l := emitted (process E self video_config) w in
  (forall p n c, Called (client_upload p n c) ∈ l -> n = title) /\
  ((process E self video_config w).1 = Ok tt ->
   exists p, Called (client_upload p title "nobody") ∈ l).
Proof.
  intros title l. subst l.
  destruct (app_directory_config self) as [c|] eqn:Hc.
  2:{ destruct (process_no_directory_emitted E self video_config w Hc)
        as (-> & e & ->).
      split; [intros p n c' Hin; by apply elem_of_nil in Hin|done]. }
  pose (Phi := fun (r : result unit) (l : list event) =>
    (forall p n c', Called (client_upload p n c') ∈ l -> n = title) /\
    (r = Ok tt -> exists p, Called (client_upload p title "nobody") ∈ l)).
  apply (emits_emitted (fun w' => today w' = today w)
           (process E self video_config) Phi); [|done].
  eapply (process_emits E _ (fun e => is_upload e = false))
    with (Qt := fun t => t = title); try eassumption.
  - intros e l1 Hl1. split; [|done]. intros p n c' Hin.
    rewrite Forall_forall in Hl1. by apply Hl1 in Hin.
  - intros r l1 l2 Hl1 [H1 H2]. split.
    + intros p n c' [Hin|Hin]%elem_of_app; [|by eapply H1].
      rewrite Forall_forall in Hl1. by apply Hl1 in Hin.
    + intros Hr. destruct (H2 Hr) as (p & Hp). exists p.
      apply elem_of_app. by right.
  - by intros e _ _ _ He _ _.
  - right. split; [event_cases|done].
  - right. split; [event_cases|done].
  - right. split; [event_cases|done].
  - by apply keeps_resolve_title.
  - intros t r l -> (ru & lu & Hlu & Hl). split.
    + intros p n c' Hin.
      assert (Called (client_upload p n c') ∈ lu) as Hin'.
      { destruct ru as [uri|e]; [|by subst].
        destruct Hl as (la & Hla & ->).
        apply elem_of_app in Hin as [Hin|Hin]; [done|].
        unfold attach_events in Hla. subst la.
        destruct (is_not_None uri && truthy (image_url video_config));
          set_solver. }
      destruct ru as [uri|e]; simpl in Hlu.
      * destruct Hlu as (u & -> & ->). set_solver.
      * destruct Hlu as [->|(u & ->)]; set_solver.
    + intros _. eexists.
      assert (Called (client_upload
                (trimmed_video (artifact_paths c video_config)) title
                "nobody") ∈ lu) as Hin'.
      { destruct ru as [uri|e]; simpl in Hlu.
        - destruct Hlu as (u & -> & ->). set_solver.
        - destruct Hlu as [->|(u & ->)]; set_solver. }
      destruct ru as [uri|e]; [|by subst].
      destruct Hl as (la & Hla & ->). apply elem_of_app. by left.
Qed.


Lemma process_stage_events (E : env) (self : Driver)
    (video_config : VideoConfiguration) (c : AppDirectoryConfiguration)
    (w : world) :
  app_directory_config self = Some c ->
  Forall (stage_event (get_youtube_url E (video_id video_config)) c
            video_config)
    (emitted (process E self video_config) w).
Proof.
  intros Hc.
  set (P := stage_event (get_youtube_url E (video_id video_config)) c
              video_config).
  apply (emits_emitted (fun _ => True) (process E self video_config)
           (fun _ l => Forall P l)); [|done].
  eapply (emits_process E (fun _ => True) P) with (Qt := fun _ => True);
    try eassumption.
  - done.
  - intros _ l1 l2 H1 H2. by apply Forall_app.
  - done.
  - right. apply keeps_download_youtube_resources; try done;
      intros; simpl; by left.
  - right. apply keeps_join_resource; try done; intros; simpl;
      [by right; left|by left|by right; left].
  - right. apply keeps_trim_resource; try done; intros; simpl;
      [by right; right; left|by right|by right; right; left].
  - done.
  - by apply keeps_resolve_title_any.
  - intros title _. eapply emits_weaken; [|by apply emits_upload_and_attach].
    intros r l Hl. eapply tail_events_Forall; [..|exact Hl]; try done;
      intros; simpl; right; right; right; by eexists.
Qed.

(** [trim_resource] alone: the arguments of its one ffmpeg run. *)
Lemma trim_resource_emitted (E : env) (input_path output_path : string)
    (s e : Z) (w : world) :
  Called (ffmpeg_run [input_path] output_path
            [("ss", VInt s); ("t", VInt e); ("vcodec", VStr "copy");
             ("acodec", VStr "copy")])
  ∈ emitted (trim_resource E input_path output_path s e) w.
Proof.
  unfold emitted, trim_resource, spied, bind, call_lib, record, ret. simpl.
  destruct (answer (respond E _ _)); simpl; rewrite <- !app_assoc;
    rewrite drop_app_length; set_solver.
Qed.

(** ** Separators and decimal numerals *)

Lemma split_on_nonempty (sep : ascii) (s : string) : split_on sep s <> [].
Proof.
  induction s as [|a rest IH]; simpl; [done|].
  destruct (split_on sep rest); [done|]. by destruct (Ascii.eqb a sep).
Qed.

Lemma split_on_free (sep : ascii) (s : string) :
  free_of sep s = true -> split_on sep s = [s].
Proof.
  induction s as [|a rest IH]; simpl; [done|].
  intros [Ha Hrest]%andb_true_iff. rewrite (IH Hrest).
  by destruct (Ascii.eqb a sep).
Qed.

Lemma split_on_app (sep : ascii) (h rest : string) :
  free_of sep h = true ->
  split_on sep (h +:+ String sep rest) = h :: split_on sep rest.
Proof.
  induction h as [|a h IH]; simpl.
  - intros _. rewrite Ascii.eqb_refl.
    destruct (split_on sep rest) eqn:Hs; [|done].
    by apply split_on_nonempty in Hs.
  - intros [Ha Hh]%andb_true_iff. rewrite (IH Hh).
    by destruct (Ascii.eqb a sep).
Qed.

Lemma join_split_on (sep : ascii) (s : string) :
  join_with sep (split_on sep s) = s.
Proof.
  induction s as [|a rest IH]; simpl; [done|].
  destruct (split_on sep rest) as [|cur others] eqn:Hs.
  { by apply split_on_nonempty in Hs. }
  destruct (Ascii.eqb_spec a sep) as [->|Hne].
  - simpl. simpl in IH. by rewrite IH.
  - simpl in *. destruct others; simpl in *; by rewrite <- IH.
Qed.

Lemma uint_of_string_free (c : ascii) (s : string) (d : Decimal.uint) :
  (c = ":" \/ c = "_" \/ c = "/")%char ->
  NilEmpty.uint_of_string s = Some d -> free_of c s = true.
Proof.
  intros Hc. revert d. induction s as [|a s IH]; simpl; [done|].
  intros d Hd. destruct (NilEmpty.uint_of_string s) as [d'|] eqn:Hs;
    [|done].
  rewrite (IH d' eq_refl), andb_true_r.
  apply uint_of_char_spec in Hd.
  destruct Hc as [-> | [-> | ->]]; repeat destruct Hd as [[-> _]|Hd]; try done;
    by destruct Hd as [-> _].
Qed.

Lemma numeral_free (s : string) (v : Z) :
  numeral s = Some v -> free_of ":" s = true.
Proof.
  unfold numeral, NilZero.uint_of_string. destruct s as [|a s]; [done|].
  destruct (NilEmpty.uint_of_string (String a s)) as [d|] eqn:Hd; [|done].
  intros _. eapply uint_of_string_free; [by left|exact Hd].
Qed.

(** [str(n)] holds digits and at most a leading minus sign. *)
Lemma str_int_free (c : ascii) (n : Z) :
  (c = "_" \/ c = "/")%char -> free_of c (str_int n) = true.
Proof.
  intros Hc.
  assert (forall d, free_of c (NilEmpty.string_of_uint d) = true) as Hu.
  { intros d. eapply uint_of_string_free; [|apply NilEmpty.usu].
    destruct Hc as [-> | ->]; auto. }
  assert (forall d, free_of c (NilZero.string_of_uint d) = true) as Hz.
  { intros d. destruct d; try apply Hu. simpl. by destruct Hc as [-> | ->]. }
  unfold str_int. destruct (Z.to_int n) as [d|d]; simpl; [apply Hz|].
  rewrite Hz, andb_true_r. by destruct Hc as [-> | ->].
Qed.

Lemma str_int_nonempty (n : Z) : str_int n <> "".
Proof.
  unfold str_int. destruct (Z.to_int n) as [d|d]; simpl; [|done].
  by destruct d.
Qed.

Lemma str_int_inj (a b : Z) : str_int a = str_int b -> a = b.
Proof.
  unfold str_int. intros Heq. apply DecimalZ.to_int_inj.
  assert (forall n, NilZero.int_of_string (NilZero.string_of_int (Z.to_int n))
                    = Some (Z.to_int n)) as Hisi.
  { intros n. apply NilZero.isi; destruct n; simpl; try done;
      intros [= H]; by apply DecimalPos.Unsigned.to_uint_nonnil in H. }
  pose proof (Hisi a) as Ha. rewrite Heq, Hisi in Ha. congruence.
Qed.

Lemma string_length_app (a b : string) :
  String.length (a +:+ b) = (String.length a + String.length b)%nat.
Proof. induction a as [|c a IH]; simpl; [done|]. by rewrite IH. Qed.

Lemma string_app_assoc (a b c : string) :
  (a +:+ b) +:+ c = a +:+ (b +:+ c).
Proof.
  induction a as [|x a IH]; [done|].
  change (String x ((a +:+ b) +:+ c) = String x (a +:+ (b +:+ c))).
  by rewrite IH.
Qed.

Lemma string_app_inv_tail (a b s : string) : a +:+ s = b +:+ s -> a = b.
Proof.
  revert b. induction a as [|c a IH]; intros [|c' b] Heq; simpl in *.
  - done.
  - apply (f_equal String.length) in Heq.
    rewrite ?string_length_app in Heq. simpl in Heq.
    rewrite ?string_length_app in Heq. lia.
  - apply (f_equal String.length) in Heq.
    rewrite ?string_length_app in Heq. simpl in Heq.
    rewrite ?string_length_app in Heq. lia.
  - injection Heq as -> Heq. f_equal. by apply IH.
Qed.

(** Two strings without [c], each followed by [c]: the first [c] says
    where the first string ends. *)
Lemma split_at_first (c : ascii) (a b x y : string) :
  free_of c a = true -> free_of c b = true ->
  a +:+ String c x = b +:+ String c y -> a = b /\ x = y.
Proof.
  revert b. induction a as [|a0 a IH]; intros [|b0 b] Ha Hb Heq;
    simpl in *.
  - by injection Heq.
  - injection Heq as <- _. by rewrite Ascii.eqb_refl in Hb.
  - injection Heq as -> _. by rewrite Ascii.eqb_refl in Ha.
  - injection Heq as -> Heq.
    apply andb_true_iff in Ha as [_ Ha]. apply andb_true_iff in Hb as [_ Hb].
    destruct (IH b Ha Hb Heq) as [-> ->]. done.
Qed.

Lemma starts_with_sep_free (s rest : string) :
  s <> "" -> free_of "/" s = true -> starts_with_sep (s +:+ rest) = false.
Proof.
  destruct s as [|a s]; [done|]. simpl. intros _ [Ha _]%andb_true_iff.
  apply bool_decide_eq_false. intros ->. by rewrite Ascii.eqb_refl in Ha.
Qed.

(** [os.path.join(dir, name)] determines a relative [name]. *)
Lemma path_join_inj (dir a b : string) :
  starts_with_sep a = false -> starts_with_sep b = false ->
  path_join dir a = path_join dir b -> a = b.
Proof.
  unfold path_join. intros -> ->.
  destruct (bool_decide (dir = "") || ends_with_sep dir); intros Heq.
  - by apply (inj (String.app dir)) in Heq.
  - apply (inj (String.app dir)) in Heq. by apply (inj (String.app "/")) in Heq.
Qed.

(** The trimmed file name determines the time range, whatever the
    resolution. *)
Lemma trimmed_name_inj (v1 v2 : VideoConfiguration) :
  resolution v1 = resolution v2 ->
  trimmed_video (artifact_names v1) = trimmed_video (artifact_names v2) ->
  start_time_in_sec v1 = start_time_in_sec v2 /\
  end_time_in_sec v1 = end_time_in_sec v2.
Proof.
  unfold artifact_names. simpl. intros -> Heq.
  apply string_app_inv_tail in Heq.
  apply split_at_first in Heq as [Hs He];
    [|apply str_int_free; by left..].
  split; by apply str_int_inj.
Qed.

Lemma trimmed_name_relative (v : VideoConfiguration) :
  starts_with_sep (trimmed_video (artifact_names v)) = false.
Proof.
  unfold artifact_names. simpl. rewrite string_app_assoc.
  apply starts_with_sep_free; [apply str_int_nonempty|].
  apply str_int_free. by right.
Qed.

(** ** The timestamp conversion *)

Lemma get_seconds_fields (h m s : string) (hours minutes seconds : Z) :
  numeral h = Some hours -> numeral m = Some minutes ->
  numeral s = Some seconds ->
  get_seconds (h +:+ ":" +:+ m +:+ ":" +:+ s) =
  inr (hours * 3600 + minutes * 60 + seconds).
Proof.
  intros Hh Hm Hs. unfold get_seconds.
  change (h +:+ ":" +:+ m +:+ ":" +:+ s)
    with (h +:+ String ":" (m +:+ String ":" s)).
  rewrite (split_on_app _ _ _ (numeral_free _ _ Hh)).
  rewrite (split_on_app _ _ _ (numeral_free _ _ Hm)).
  rewrite (split_on_free _ _ (numeral_free _ _ Hs)).
  by rewrite Hh, Hm, Hs.
Qed.

Lemma get_seconds_inv (t : string) (n : Z) :
  get_seconds t = inr n ->
  exists h m s hours minutes seconds,
    t = h +:+ ":" +:+ m +:+ ":" +:+ s /\
    numeral h = Some hours /\ numeral m = Some minutes /\
    numeral s = Some seconds /\
    n = hours * 3600 + minutes * 60 + seconds.
Proof.
  unfold get_seconds. pose proof (join_split_on ":" t) as Hjoin.
  destruct (split_on ":" t) as [|h [|m [|s [|]]]]; try done.
  destruct (numeral h) as [hours|] eqn:Hh; [|done].
  destruct (numeral m) as [minutes|] eqn:Hm; [|done].
  destruct (numeral s) as [seconds|] eqn:Hs; [|done].
  intros [= <-]. exists h, m, s, hours, minutes, seconds.
  by rewrite <- Hjoin.
Qed.

Lemma get_seconds_error (t : string) :
  (exists n, get_seconds t = inr n) \/
  get_seconds t = inl (Exn ValueError ("malformed timestamp " +:+ t)).
Proof.
  unfold get_seconds.
  destruct (split_on ":" t) as [|h [|m [|s [|]]]]; try by right.
  destruct (numeral h), (numeral m), (numeral s); try by right.
  left. by eexists.
Qed.

(** ** The command line *)

Section Main.

Context (E : env) (args : Args) (cfg : VimeoConfiguration).

Hypothesis credentials_loaded :
  get_vimeo_configuration E (arg_config args) = inr cfg.

Let request :=
  get_video_configuration E (arg_url args) (arg_start args) (arg_end args)
    (arg_resolution args) (arg_title args) (arg_image args).

Lemma main_caught (err : exn) (w : world) :
  request = inl err ->
  exn_cls err = PytubeError \/ exn_cls err = VideoUploadFailure ->
  main E args w =
  (Raise (Exn (SystemExit 1) ""),
   World (fs w) (today w) (trace w)
     (log w ++ [(ERROR, "Failed with exception " +:+ exn_msg err)])).
Proof.
  subst request. intros Hreq Hcls.
  unfold main, bind, try_except. rewrite credentials_loaded. simpl.
  rewrite Hreq. simpl.
  unfold is_PytubeError, is_VideoUploadFailure.
  destruct Hcls as [-> | ->]; by simpl.
Qed.

Lemma main_uncaught (err : exn) (w : world) :
  request = inl err ->
  exn_cls err <> PytubeError -> exn_cls err <> VideoUploadFailure ->
  main E args w = (Raise err, w).
Proof.
  subst request. intros Hreq H1 H2.
  unfold main, bind, try_except. rewrite credentials_loaded. simpl.
  rewrite Hreq. simpl.
  unfold is_PytubeError, is_VideoUploadFailure.
  by rewrite !bool_decide_eq_false_2.
Qed.

Lemma main_runs_process (video_config : VideoConfiguration) (w : world) :
  request = inr video_config ->
  main E args w =
  process E
    {| vimeo_config := Some cfg; app_directory_config := None |}
    video_config w.
Proof.
  subst request. intros Hreq.
  unfold main, bind at 1, try_except. rewrite credentials_loaded. simpl.
  unfold bind at 1. by rewrite Hreq.
Qed.

End Main.

(** Closed membership goals, by evaluation. *)
Ltac vm_decide_elem := refine (bool_decide_unpack _ _); vm_compute; exact I.

(** [stage_event] reads the request through the four fields only. *)
Lemma stage_event_fields (url : string) (c : AppDirectoryConfiguration)
    (v1 v2 : VideoConfiguration) (e : event) :
  video_id v1 = video_id v2 -> resolution v1 = resolution v2 ->
  start_time_in_sec v1 = start_time_in_sec v2 ->
  end_time_in_sec v1 = end_time_in_sec v2 ->
  stage_event url c v2 e -> stage_event url c v1 e.
Proof.
  destruct v1, v2. simpl. intros -> -> -> ->. done.
Qed.



(** ** [process] is the sequence of its stages *)

Lemma bind_ext {A B} (m : M A) (f g : A -> M B) (w : world) :
  (forall a w', f a w' = g a w') -> bind m f w = bind m g w.
Proof.
  intros Hfg. unfold bind. destruct (m w) as [[a|e] w1]; [apply Hfg|done].
Qed.

Lemma bind_assoc_at {A B C} (m : M A) (f : A -> M B) (g : B -> M C)
    (w : world) :
  bind (bind m f) g w = bind m (fun a => bind (f a) g) w.
Proof. unfold bind. by destruct (m w) as [[a|e] w1]. Qed.

Lemma process_as_stages (E : env) (self : Driver)
    (video_config : VideoConfiguration) (w : world) :
  process E self video_config w = staged_process E self video_config w.
Proof.
  unfold process, staged_process.
  apply bind_ext. intros title w1. apply bind_ext. intros c w2.
  unfold stage_directory. rewrite bind_assoc_at.
  apply bind_ext. intros dir_exists w3. apply bind_ext. intros _ w4.
  unfold pipeline_from_download, stage_download.
  rewrite bind_assoc_at. apply bind_ext. intros have_video w5.
  rewrite bind_assoc_at. apply bind_ext. intros have_audio w6.
  apply bind_ext. intros _ w7. apply bind_ext. intros _ w8.
  unfold stage_merge. rewrite bind_assoc_at.
  apply bind_ext. intros have_combined w9. apply bind_ext. intros _ w10.
  unfold stage_trim. rewrite bind_assoc_at.
  apply bind_ext. intros have_trimmed w11. apply bind_ext. intros _ w12.
  unfold stage_connect. rewrite bind_assoc_at.
  apply bind_ext. intros token w13. rewrite bind_assoc_at.
  apply bind_ext. intros key w14. rewrite bind_assoc_at.
  apply bind_ext. intros secret w15. rewrite bind_assoc_at.
  apply bind_ext. intros _ w16.
  apply bind_ext. intros _ w17. reflexivity.
Qed.

Lemma resolve_title_run (title : option string) (w : world) :
  resolve_title title w = (Ok (title_for (today w) title), w).
Proof.
  unfold resolve_title, title_for. destruct title as [t|]; [|done].
  by destruct (bool_decide (t = "")).
Qed.

Lemma staged_process_run (E : env) (self : Driver)
    (video_config : VideoConfiguration) (c : AppDirectoryConfiguration)
    (w : world) :
  app_directory_config self = Some c ->
  staged_process E self video_config w =
  bind (stage_directory E (video_dir_of c video_config))
    (fun _ =>
       pipeline_from_download E self c video_config
         (title_for (today w) (video_title video_config)))
    w.
Proof.
  intros Hc. unfold staged_process. unfold bind at 1.
  rewrite resolve_title_run. unfold bind at 1. by rewrite Hc.
Qed.

Lemma stage_directory_present (E : env) (video_dir : string) (w : world) :
  video_dir ∈ fs w -> stage_directory E video_dir w = (Ok tt, w).
Proof.
  intros Hin. unfold stage_directory, bind, path_exists.
  by rewrite bool_decide_eq_true_2.
Qed.

(** ** A re-run on a complete set of artifacts *)

Lemma stage_download_present (E : env) (video_dir url : string)
    (names paths : artifacts) (resolution : string) (w : world) :
  video_stream paths ∈ fs w -> audio_stream paths ∈ fs w ->
  stage_download E video_dir url names paths resolution w = (Ok tt, w).
Proof.
  intros Hv Ha. unfold stage_download, bind, path_exists.
  by rewrite !bool_decide_eq_true_2.
Qed.

Lemma stage_merge_present (E : env) (paths : artifacts) (w : world) :
  combined_video paths ∈ fs w -> stage_merge E paths w = (Ok tt, w).
Proof.
  intros Hin. unfold stage_merge, bind, path_exists.
  by rewrite bool_decide_eq_true_2.
Qed.

Lemma stage_trim_present (E : env) (paths : artifacts) (s e : Z)
    (w : world) :
  trimmed_video paths ∈ fs w -> stage_trim E paths s e w = (Ok tt, w).
Proof.
  intros Hin. unfold stage_trim, bind, path_exists.
  by rewrite bool_decide_eq_true_2.
Qed.

(** The events of the last part of [process] begin with the entry into
    [upload_video_to_vimeo] and the upload call. *)
Lemma tail_events_begin (video_path title : string) (image : option string)
    (l : list event) :
  tail_events video_path title image l ->
  exists rest,
    l = Invoked (Hupload_video_to_vimeo video_path title)
        :: Called (client_upload video_path title "nobody") :: rest.
Proof.
  intros (r & lu & Hlu & Hl). destruct r as [v|e]; simpl in Hlu.
  - destruct Hlu as (u & -> & ->). destruct Hl as (la & _ & ->).
    by eexists.
  - subst l. destruct Hlu as [->|(u & ->)]; by eexists.
Qed.

(** With the directory and the four artifacts on local storage and a
    Vimeo client that can be constructed, a run goes straight to the
    upload: the client is constructed, [upload_video_to_vimeo] is
    entered and the upload call is made, whatever it answers. *)
Lemma process_rerun_reaches_upload (E : env) (self : Driver)
    (video_config : VideoConfiguration) (c : AppDirectoryConfiguration)
    (cfg : VimeoConfiguration) (w : world) :
  app_directory_config self = Some c ->
  vimeo_config self = Some cfg ->
  let paths := artifact_paths c video_config in
  let title := title_for (today w) (video_title video_config) in
  video_dir_of c video_config ∈ fs w ->
  video_stream paths ∈ fs w -> audio_stream paths ∈ fs w ->
  combined_video paths ∈ fs w -> trimmed_video paths ∈ fs w ->
  (forall w', exists v,
     answer (respond E (VimeoClient (token cfg) (key cfg) (secret cfg)) w')
     = inr v) ->
  exists rest,
    emitted (process E self video_config) w =
    Called (VimeoClient (token cfg) (key cfg) (secret cfg))
    :: Invoked (Hupload_video_to_vimeo (trimmed_video paths) title)
    :: Called (client_upload (trimmed_video paths) title "nobody") :: rest.
Proof.
  intros Hc Hcfg paths title Hdir Hv Ha Hcomb Htrim Hclient.
  unfold emitted.
  rewrite process_as_stages, (staged_process_run E self video_config c w Hc).
  unfold bind at 1. rewrite (stage_directory_present E _ w Hdir).
  unfold pipeline_from_download. fold paths. fold title.
  unfold bind at 1. rewrite (stage_download_present E _ _ _ paths _ w Hv Ha).
  unfold bind at 1, logging at 1. cbv beta iota.
  match goal with
  | |- context [bind (stage_merge E paths) _ ?w0] => set (w1 := w0)
  end.
  unfold bind at 1. rewrite (stage_merge_present E paths w1 Hcomb).
  unfold bind at 1. rewrite (stage_trim_present E paths _ _ w1 Htrim).
  destruct (Hclient w1) as (v & Hanswer).
  rewrite Hcfg. unfold stage_connect, getattr.
  unfold bind at 1. unfold bind at 1. unfold bind at 1. unfold bind at 1.
  unfold bind at 1. unfold ret at 1 2 3. unfold call_lib at 1.
  rewrite Hanswer. unfold logging at 1.
  match goal with
  | |- context [upload_and_attach E ?p ?t ?i ?w2] =>
      destruct (upload_and_attach_trace E p t i w2) as (l & -> & Htail)
  end.
  destruct (tail_events_begin _ _ _ _ Htail) as (rest & ->).
  exists rest. simpl. by rewrite <- app_assoc, drop_app_length.
Qed.

(** A run that enters [upload_video_to_vimeo] makes the upload call. *)
Lemma process_upload_entered (E : env) (self : Driver)
    (video_config : VideoConfiguration) (w : world) (p t : string) :
  let l := emitted (process E self video_config) w in
  Invoked (Hupload_video_to_vimeo p t) ∈ l ->
  Called (client_upload p t "nobody") ∈ l.
Proof.
  intros l. subst l.
  destruct (app_directory_config self) as [c|] eqn:Hc.
  2:{ destruct (process_no_directory_emitted E self video_config w Hc)
        as (-> & _). by intros Hin%elem_of_nil. }
  pose (Phi := fun (r : result unit) (l : list event) =>
    Invoked (Hupload_video_to_vimeo p t) ∈ l ->
    Called (client_upload p t "nobody") ∈ l).
  apply (emits_emitted (fun _ => True) (process E self video_config) Phi);
    [|done].
  eapply (process_emits E _ (fun e => is_upload e = false))
    with (Qt := fun _ => True); try eassumption.
  - intros e l Hl Hin. rewrite Forall_forall in Hl. by apply Hl in Hin.
  - intros r l1 l2 Hl1 H2 [Hin|Hin]%elem_of_app.
    + rewrite Forall_forall in Hl1. by apply Hl1 in Hin.
    + apply elem_of_app. right. by apply H2.
  - by intros e _ _ _ He _ _.
  - right. split; [event_cases|done].
  - right. split; [event_cases|done].
  - right. split; [event_cases|done].
  - by apply keeps_resolve_title_any.
  - intros t' r l _ Htail Hin.
    destruct (tail_events_begin _ _ _ _ Htail) as (rest & ->).
    destruct Htail as (ru & lu & Hlu & Hl).
    assert (Invoked (Hupload_video_to_vimeo p t) ∈ lu) as Hin'.
    { destruct ru as [uri|e]; [|by subst].
      destruct Hl as (la & Hla & Heq). rewrite Heq in Hin.
      apply elem_of_app in Hin as [Hin|Hin]; [done|].
      unfold attach_events in Hla. subst la.
      destruct (is_not_None uri && truthy (image_url video_config));
        set_solver. }
    assert (p = trimmed_video (artifact_paths c video_config) /\ t = t')
      as [-> ->].
    { destruct ru as [uri|e]; simpl in Hlu.
      - destruct Hlu as (u & -> & ->). set_solver.
      - destruct Hlu as [->|(u & ->)]; set_solver. }
    set_solver.
Qed.

(** ** The date of the default title *)

(** A number below 100 prints as its tens digit and its units digit. *)
Lemma two_digits_spec (n : Z) :
  0 <= n < 100 ->
  two_digits n =
  String (ascii_of_nat (48 + Z.to_nat (n / 10)))
    (String (ascii_of_nat (48 + Z.to_nat (n mod 10))) "").
Proof.
  intros Hn.
  assert (exists k : nat, n = Z.of_nat k /\ (k < 100)%nat) as (k & -> & Hk).
  { exists (Z.to_nat n). lia. }
  clear Hn.
  do 100 (destruct k as [|k]; [vm_compute; reflexivity|]).
  lia.
Qed.

Lemma two_digits_mod (n : Z) : two_digits n = two_digits (n mod 100).
Proof. unfold two_digits. by rewrite Z.mod_mod. Qed.

Lemma strftime_mdy_spec (d : date) :
  1 <= month d <= 12 -> 1 <= day d <= 31 ->
  let digit n := String (ascii_of_nat (48 + Z.to_nat n)) "" in
  strftime_mdy d =
  digit (month d / 10) +:+ digit (month d mod 10) +:+ "/" +:+
  digit (day d / 10) +:+ digit (day d mod 10) +:+ "/" +:+
  digit (year d mod 100 / 10) +:+ digit (year d mod 10).
Proof.
  intros Hm Hd digit. unfold strftime_mdy.
  rewrite (two_digits_mod (year d)).
  rewrite (two_digits_spec (month d)), (two_digits_spec (day d)) by lia.
  rewrite (two_digits_spec (year d mod 100))
    by (apply Z.mod_pos_bound; lia).
  rewrite (Z.mod_mod_divide (year d) 100 10) by (by exists 10).
  subst digit. cbv [String.append]. reflexivity.
Qed.

(** * The claims *)

(** C1 (the code departs from it).  At start second 10 and end second 20
    the trim stage runs ffmpeg on the merged artifact with seek offset
    [ss = 10] and duration parameter [t = 20]: the end second itself,
    not the 20 - 10 = 10 seconds the range lasts. *)
Theorem trim_duration_is_end_second :
  let paths := artifact_paths Sample.dirs Sample.request in
  Called (ffmpeg_run [combined_video paths] (trimmed_video paths)
            [("ss", VInt 10); ("t", VInt 20); ("vcodec", VStr "copy");
             ("acodec", VStr "copy")])
  ∈ emitted (process Sample.libs Sample.driver Sample.request) Sample.fresh /\
  end_time_in_sec Sample.request - start_time_in_sec Sample.request = 10.
Proof. split; [vm_decide_elem|reflexivity]. Qed.

(** C2, as stated, fails for the upload stage: with all four artifacts
    of the request on local storage, a re-run enters
    [upload_video_to_vimeo] and calls the upload client again. *)
Lemma rerun_uploads_again :
  let paths := artifact_paths Sample.dirs Sample.request in
  let l := emitted (process Sample.libs Sample.driver Sample.request)
             Sample.rerun in
  video_stream paths ∈ fs Sample.rerun /\
  audio_stream paths ∈ fs Sample.rerun /\
  combined_video paths ∈ fs Sample.rerun /\
  trimmed_video paths ∈ fs Sample.rerun /\
  Invoked (Hupload_video_to_vimeo (trimmed_video paths) "(CW) 03/07/24") ∈ l /\
  Called (client_upload (trimmed_video paths) "(CW) 03/07/24" "nobody") ∈ l.
Proof. repeat split; vm_decide_elem. Qed.

(** C2, amended.  Each of the three local stages is skipped when its
    output is on local storage as [process] starts: no download event
    when both stream files exist, no merge event when the combined file
    exists, no trim event when the trimmed file exists.  The upload is
    behind no such check: a run that returns has called the upload
    client; a run that enters [upload_video_to_vimeo] calls the upload
    client, whether the call then returns or raises; and with the
    directory and all four artifacts on local storage and a Vimeo
    client that can be constructed, the run goes straight to that
    call. *)
Theorem process_skips_stages_with_artifacts (E : env) (self : Driver)
    (video_config : VideoConfiguration) (c : AppDirectoryConfiguration)
    (w : world) :
  app_directory_config self = Some c ->
  let paths := artifact_paths c video_config in
  let l := emitted (process E self video_config) w in
  (video_stream paths ∈ fs w -> audio_stream paths ∈ fs w ->
   call_count is_download l = 0%nat) /\
  (combined_video paths ∈ fs w -> call_count is_join l = 0%nat) /\
  (trimmed_video paths ∈ fs w -> call_count is_trim l = 0%nat) /\
  ((process E self video_config w).1 = Ok tt ->
   exists p t, Called (client_upload p t "nobody") ∈ l) /\
  (forall p t,
     Invoked (Hupload_video_to_vimeo p t) ∈ l ->
     Called (client_upload p t "nobody") ∈ l) /\
  (forall cfg,
     vimeo_config self = Some cfg ->
     video_dir_of c video_config ∈ fs w ->
     video_stream paths ∈ fs w -> audio_stream paths ∈ fs w ->
     combined_video paths ∈ fs w -> trimmed_video paths ∈ fs w ->
     (forall w', exists v,
        answer (respond E (VimeoClient (token cfg) (key cfg) (secret cfg)) w')
        = inr v) ->
     let title := title_for (today w) (video_title video_config) in
     exists rest,
       l = Called (VimeoClient (token cfg) (key cfg) (secret cfg))
           :: Invoked (Hupload_video_to_vimeo (trimmed_video paths) title)
           :: Called (client_upload (trimmed_video paths) title "nobody")
           :: rest).
Proof.
  intros Hc paths l. repeat split.
  - by apply process_skips_download.
  - by apply process_skips_join.
  - by apply process_skips_trim.
  - intros Hok.
    destruct (process_upload_title E self video_config w) as [_ Hup].
    destruct (Hup Hok) as (p & Hp). by eexists _, _.
  - intros p t. apply process_upload_entered.
  - intros cfg Hcfg Hdir Hv Ha Hcomb Htrim Hclient.
    by apply process_rerun_reaches_upload.
Qed.

Lemma process_skips_stages_with_artifacts_witness :
  let l := emitted (process Sample.libs Sample.driver Sample.request)
             Sample.rerun in
  let l' := emitted (process Sample.libs_upload_fails Sample.driver
                       Sample.request) Sample.rerun in
  call_count is_download l = 0%nat /\ call_count is_join l = 0%nat /\
  call_count is_trim l = 0%nat /\
  exists rest,
    l' = Called (VimeoClient "t" "k" "s")
         :: Invoked (Hupload_video_to_vimeo "/v/abc123/10_20_1080p.mp4"
                       "(CW) 03/07/24")
         :: Called (client_upload "/v/abc123/10_20_1080p.mp4"
                      "(CW) 03/07/24" "nobody")
         :: rest.
Proof.
  destruct (process_skips_stages_with_artifacts Sample.libs Sample.driver
              Sample.request Sample.dirs Sample.rerun eq_refl)
    as (Hd & Hj & Ht & _).
  destruct (process_skips_stages_with_artifacts Sample.libs_upload_fails
              Sample.driver Sample.request Sample.dirs Sample.rerun eq_refl)
    as (_ & _ & _ & _ & _ & Hup).
  split; [apply Hd; vm_decide_elem|].
  split; [apply Hj; vm_decide_elem|].
  split; [apply Ht; vm_decide_elem|].
  apply (Hup Sample.creds eq_refl); try vm_decide_elem.
  intros w'. by eexists.
Defined.

(** C3.  A driver built without a directory configuration, as [main]
    builds it, fails in [process] with the attribute error on
    [videos_dir]; the world is left as it was, so no directory was
    made and no download, merge, trim or upload collaborator was
    invoked.  [main] ends that way whenever both its inputs load. *)
Theorem process_fails_without_directory_config (E : env)
    (v : option VimeoConfiguration) (video_config : VideoConfiguration)
    (w : world) :
  let self := {| vimeo_config := v; app_directory_config := None |} in
  let failure :=
    Raise (Exn AttributeError
             "'NoneType' object has no attribute 'videos_dir'") in
  process E self video_config w = (failure, w) /\
  call_count is_collaborator (emitted (process E self video_config) w)
    = 0%nat /\
  (forall args cfg,
     get_vimeo_configuration E (arg_config args) = inr cfg ->
     get_video_configuration E (arg_url args) (arg_start args)
       (arg_end args) (arg_resolution args) (arg_title args)
       (arg_image args) = inr video_config ->
     main E args w = (failure, w)).
Proof.
  intros self failure. split; [apply process_no_directory|]. split.
  - by rewrite (emitted_unchanged _ _ _ (process_no_directory E v _ w)).
  - intros args cfg Hcfg Hreq.
    rewrite (main_runs_process E args cfg Hcfg video_config w Hreq).
    apply process_no_directory.
Qed.

(** C4.  The timestamp conversion maps "01:02:03" to 3723 and
    "00:00:00" to 0 and fails on "abc"; on three decimal fields
    separated by colons it is hours * 3600 + minutes * 60 + seconds,
    and every other string is a parsing error. *)
Theorem get_seconds_spec :
  get_seconds "01:02:03" = inr 3723 /\
  get_seconds "00:00:00" = inr 0 /\
  get_seconds "abc" = inl (Exn ValueError "malformed timestamp abc") /\
  (forall h m s hours minutes seconds,
     numeral h = Some hours -> numeral m = Some minutes ->
     numeral s = Some seconds ->
     get_seconds (h +:+ ":" +:+ m +:+ ":" +:+ s) =
     inr (hours * 3600 + minutes * 60 + seconds)) /\
  (forall t,
     (exists h m s hours minutes seconds,
        t = h +:+ ":" +:+ m +:+ ":" +:+ s /\
        numeral h = Some hours /\ numeral m = Some minutes /\
        numeral s = Some seconds /\
        get_seconds t = inr (hours * 3600 + minutes * 60 + seconds)) \/
     get_seconds t = inl (Exn ValueError ("malformed timestamp " +:+ t))).
Proof.
  repeat split; try reflexivity.
  - apply get_seconds_fields.
  - intros t. destruct (get_seconds_error t) as [[n Hn]|Herr]; [left|by right].
    destruct (get_seconds_inv t n Hn)
      as (h & m & s & hours & minutes & seconds & Ht & Hh & Hm & Hs & ->).
    by exists h, m, s, hours, minutes, seconds.
Qed.

(** C5.  With the title absent or empty, every upload call of a run
    carries "(CW) " followed by today's date as MM/DD/YY; with a
    non-empty title, every upload call carries that title unchanged.
    A run that returns has made such a call.  The date is written as
    the two digits of the month, a slash, the two digits of the day, a
    slash and the last two digits of the year, each zero padded: the
    7th of March 2024 is 03/07/24. *)
Theorem process_title_default_and_passthrough (E : env) (self : Driver)
    (video_config : VideoConfiguration) (w : world) :
  let l := emitted (process E self video_config) w in
  let uploads_as title :=
    (forall p n c, Called (client_upload p n c) ∈ l -> n = title) /\
    ((process E self video_config w).1 = Ok tt ->
     exists p, Called (client_upload p title "nobody") ∈ l) in
  let digit n := String (ascii_of_nat (48 + Z.to_nat n)) "" in
  (video_title video_config = None \/ video_title video_config = Some "" ->
   uploads_as ("(CW) " +:+ strftime_mdy (today w))) /\
  (forall t, video_title video_config = Some t -> t <> "" -> uploads_as t) /\
  (forall d,
     1 <= month d <= 12 -> 1 <= day d <= 31 ->
     strftime_mdy d =
     digit (month d / 10) +:+ digit (month d mod 10) +:+ "/" +:+
     digit (day d / 10) +:+ digit (day d mod 10) +:+ "/" +:+
     digit (year d mod 100 / 10) +:+ digit (year d mod 10)) /\
  (today w = Date 2024 3 7 ->
   video_title video_config = None \/ video_title video_config = Some "" ->
   uploads_as "(CW) 03/07/24").
Proof.
  intros l uploads_as digit. subst l uploads_as. simpl.
  pose proof (process_upload_title E self video_config w) as Hup.
  simpl in Hup. split; [|split; [|split]].
  - intros [Ht|Ht]; rewrite Ht in Hup; exact Hup.
  - intros t Ht Hne. rewrite Ht in Hup. simpl in Hup.
    by rewrite bool_decide_eq_false_2 in Hup.
  - intros d Hm Hd. by apply strftime_mdy_spec.
  - intros Hday [Ht|Ht]; rewrite Ht, Hday in Hup; exact Hup.
Qed.



(** C7.  If the combined file is on local storage when [process] is
    invoked, the run holds no merge event: [join_resource] is not
    entered and ffmpeg is not run on two inputs. *)
Theorem process_skips_merge_when_combined_exists (E : env) (self : Driver)
    (video_config : VideoConfiguration) (c : AppDirectoryConfiguration)
    (w : world) :
  app_directory_config self = Some c ->
  combined_video (artifact_paths c video_config) ∈ fs w ->
  call_count is_join (emitted (process E self video_config) w) = 0%nat.
Proof. apply process_skips_join. Qed.

Lemma process_skips_merge_when_combined_exists_witness :
  call_count is_join
    (emitted (process Sample.libs Sample.driver Sample.request) Sample.rerun)
  = 0%nat.
Proof.
  apply (process_skips_merge_when_combined_exists Sample.libs Sample.driver
           Sample.request Sample.dirs Sample.rerun eq_refl).
  vm_decide_elem.
Defined.

(** C8.  The four artifact names and paths are determined by the video
    identifier, the resolution and the two seconds: two requests that
    agree on these have the same names and, under the driver's
    directory, the same paths, whatever their titles and thumbnails;
    and every stage of a run on one of them, from any world, works on
    the artifacts of the other. *)
Theorem artifact_paths_deterministic (c : AppDirectoryConfiguration)
    (v1 v2 : VideoConfiguration) :
  video_id v1 = video_id v2 -> resolution v1 = resolution v2 ->
  start_time_in_sec v1 = start_time_in_sec v2 ->
  end_time_in_sec v1 = end_time_in_sec v2 ->
  artifact_names v1 = artifact_names v2 /\
  artifact_paths c v1 = artifact_paths c v2 /\
  (forall E self w,
     app_directory_config self = Some c ->
     Forall (stage_event (get_youtube_url E (video_id v1)) c v1)
       (emitted (process E self v2) w)).
Proof.
  intros Hid Hres Hs He. split; [|split].
  - unfold artifact_names. by rewrite Hres, Hs, He.
  - unfold artifact_paths, video_dir_of, artifact_names.
    by rewrite Hid, Hres, Hs, He.
  - intros E self w Hc. rewrite Hid.
    eapply Forall_impl; [by apply process_stage_events|].
    intros e. by apply stage_event_fields.
Qed.

Lemma artifact_paths_deterministic_witness :
  artifact_paths Sample.dirs Sample.request =
  artifact_paths Sample.dirs
    {| video_id := "abc123"; start_time_in_sec := 10; end_time_in_sec := 20;
       resolution := "1080p"; video_title := Some "Sunday";
       image_url := None |}.
Proof.
  apply (artifact_paths_deterministic Sample.dirs Sample.request
           {| video_id := "abc123"; start_time_in_sec := 10;
              end_time_in_sec := 20; resolution := "1080p";
              video_title := Some "Sunday"; image_url := None |});
    reflexivity.
Defined.

(** C9, as stated, fails for a parsing error: with a start time that is
    no timestamp the request is not built, and [main] neither logs nor
    calls [sys.exit]: the [ValueError] leaves it unhandled, with the
    log as it was. *)
Lemma main_parse_error_unlogged :
  get_seconds (arg_start Sample.malformed_command_line) =
    inl (Exn ValueError "malformed timestamp abc") /\
  main Sample.libs Sample.malformed_command_line Sample.fresh =
    (Raise (Exn ValueError "malformed timestamp abc"), Sample.fresh).
Proof. split; reflexivity. Qed.

(** C9, amended.  When the request construction fails with a pytube
    error or an upload failure, [main] logs the error and exits with
    status 1.  When it fails with an exception of any other class,
    [main] neither logs nor exits: the exception leaves [main] as it
    is, with the world untouched.  When the request is built, [main]
    ends as [process] does: a failure of the pipeline leaves [main] as
    the exception it is, with no [sys.exit] and no log record of
    [main]'s own. *)
Theorem main_exits_on_caught_request_failure (E : env) (args : Args)
    (cfg : VimeoConfiguration) (w : world) :
  get_vimeo_configuration E (arg_config args) = inr cfg ->
  let request :=
    get_video_configuration E (arg_url args) (arg_start args)
      (arg_end args) (arg_resolution args) (arg_title args)
      (arg_image args) in
  (forall err,
     request = inl err ->
     exn_cls err = PytubeError \/ exn_cls err = VideoUploadFailure ->
     main E args w =
       (Raise (Exn (SystemExit 1) ""),
        World (fs w) (today w) (trace w)
          (log w ++ [(ERROR, "Failed with exception " +:+ exn_msg err)])) /\
     exit_status (main E args w).1 = 1) /\
  (forall err,
     request = inl err ->
     exn_cls err <> PytubeError -> exn_cls err <> VideoUploadFailure ->
     main E args w = (Raise err, w)) /\
  (forall video_config,
     request = inr video_config ->
     main E args w =
       process E
         {| vimeo_config := Some cfg; app_directory_config := None |}
         video_config w /\
     (forall e, (main E args w).1 = Raise e ->
        forall code, exn_cls e <> SystemExit code) /\
     log (main E args w).2 = log w).
Proof.
  intros Hcfg request. split; [|split].
  - intros err Hreq Hcls.
    rewrite (main_caught E args cfg Hcfg err w Hreq Hcls). done.
  - intros err Hreq Hp Hv.
    exact (main_uncaught E args cfg Hcfg err w Hreq Hp Hv).
  - intros video_config Hreq.
    rewrite (main_runs_process E args cfg Hcfg video_config w Hreq).
    split; [done|]. rewrite process_no_directory. simpl. split; [|done].
    by intros e [= <-] code.
Qed.

Lemma main_exits_on_caught_request_failure_witness :
  main Sample.libs_unavailable Sample.command_line Sample.fresh =
    (Raise (Exn (SystemExit 1) ""),
     World ∅ (Date 2024 3 7) []
       [(ERROR, "Failed with exception abc123 is unavailable")]) /\
  exit_status (main Sample.libs_unavailable Sample.command_line
                 Sample.fresh).1 = 1.
Proof.
  destruct (main_exits_on_caught_request_failure Sample.libs_unavailable
              Sample.command_line Sample.creds Sample.fresh eq_refl)
    as [Hfail _].
  apply (Hfail Sample.unavailable eq_refl). by left.
Defined.

(** C10.  Two requests with the same video identifier and resolution
    have the same video-stream, audio-stream and combined paths; their
    trimmed paths are equal exactly when their time ranges are, the
    trimmed file name beginning with the start second, an underscore
    and the end second. *)
Theorem only_trimmed_path_depends_on_range (c : AppDirectoryConfiguration)
    (v1 v2 : VideoConfiguration) :
  video_id v1 = video_id v2 -> resolution v1 = resolution v2 ->
  let p1 := artifact_paths c v1 in
  let p2 := artifact_paths c v2 in
  video_stream p1 = video_stream p2 /\
  audio_stream p1 = audio_stream p2 /\
  combined_video p1 = combined_video p2 /\
  (trimmed_video p1 = trimmed_video p2 <->
   start_time_in_sec v1 = start_time_in_sec v2 /\
   end_time_in_sec v1 = end_time_in_sec v2) /\
  trimmed_video p1 =
    path_join (video_dir_of c v1)
      ((str_int (start_time_in_sec v1) +:+ "_" +:+
        str_int (end_time_in_sec v1)) +:+ "_" +:+ resolution v1 +:+ ".mp4").
Proof.
  intros Hid Hres p1 p2. subst p1 p2.
  assert (forall v, trimmed_video (artifact_paths c v) =
            path_join (video_dir_of c v) (trimmed_video (artifact_names v)))
    as Htrimmed by done.
  assert (video_dir_of c v1 = video_dir_of c v2) as Hdir.
  { unfold video_dir_of. by rewrite Hid. }
  split; [|split; [|split; [|split; [|done]]]].
  - unfold artifact_paths, artifact_names. simpl. by rewrite Hdir, Hres.
  - unfold artifact_paths, artifact_names. simpl. by rewrite Hdir, Hres.
  - unfold artifact_paths, artifact_names. simpl. by rewrite Hdir, Hres.
  - rewrite !Htrimmed, Hdir. split.
    + intros Heq. apply path_join_inj in Heq;
        [by apply trimmed_name_inj|apply trimmed_name_relative..].
    + intros [Hs He]. unfold artifact_names. simpl. by rewrite Hs, He, Hres.
Qed.

Lemma only_trimmed_path_depends_on_range_witness :
  let later :=
    {| video_id := "abc123"; start_time_in_sec := 10; end_time_in_sec := 30;
       resolution := "1080p"; video_title := None; image_url := None |} in
  combined_video (artifact_paths Sample.dirs Sample.request) =
    combined_video (artifact_paths Sample.dirs later) /\
  trimmed_video (artifact_paths Sample.dirs Sample.request) =
    "/v/abc123/10_20_1080p.mp4" /\
  trimmed_video (artifact_paths Sample.dirs later) =
    "/v/abc123/10_30_1080p.mp4".
Proof.
  intros later.
  destruct (only_trimmed_path_depends_on_range Sample.dirs Sample.request
              later eq_refl eq_refl) as (_ & _ & Hc & _ & _).
  split; [exact Hc|]. split; reflexivity.
Defined.

(** * Further properties of the driver *)

(** ** The helpers, case by case *)

Lemma download_youtube_resources_trace (E : env)
    (download_path url video_name audio_name resolution : string)
    (w : world) :
  let run :=
    download_youtube_resources E download_path url video_name audio_name
      resolution w in
  let h :=
    Hdownload_youtube_resources download_path url video_name audio_name
      resolution in
  let full :=
    download_events download_path url video_name audio_name resolution in
  exists l, trace run.2 = trace w ++ l /\
    match run.1 with
    | Ok v =>
        v = VNone /\ l = full ++ [Returned h VNone] /\ log run.2 = log w
    | Raise e =>
        (exists n, (2 <= n <= 6)%nat /\ l = take n full) /\
        log run.2 =
          log w ++
          (if is_PytubeError e
           then [(ERROR,
                  "Failed to download the video or audio " +:+ exn_msg e)]
           else [])
    end.
Proof.
  unfold download_youtube_resources, download_events, spied, bind,
    try_except, download, call_lib, record, logging, ret, raise.
  simpl.
  destruct (answer (respond E (YouTube url) _)) as [e|yt]; simpl.
  { destruct (is_PytubeError e) eqn:He; simpl; rewrite ?He;
      rewrite <- ?app_assoc; simpl; eexists; (split; [reflexivity|]);
      (split; [exists 2%nat; split; [lia|done]|by rewrite ?app_nil_r]). }
  destruct (answer (respond E (streams_first url (by_resolution _)) _))
    as [e|video]; simpl.
  { destruct (is_PytubeError e) eqn:He; simpl; rewrite ?He;
      rewrite <- ?app_assoc; simpl; eexists; (split; [reflexivity|]);
      (split; [exists 3%nat; split; [lia|done]|by rewrite ?app_nil_r]). }
  destruct video; simpl;
    try (rewrite <- ?app_assoc; simpl; eexists; (split; [reflexivity|]);
         (split; [exists 3%nat; split; [lia|done]|by rewrite ?app_nil_r])).
  destruct (answer (respond E (stream_download _ video_name) _))
    as [e|dv]; simpl.
  { destruct (is_PytubeError e) eqn:He; simpl; rewrite ?He;
      rewrite <- ?app_assoc; simpl; eexists; (split; [reflexivity|]);
      (split; [exists 4%nat; split; [lia|done]|by rewrite ?app_nil_r]). }
  destruct (answer (respond E (streams_first url only_audio) _))
    as [e|audio]; simpl.
  { destruct (is_PytubeError e) eqn:He; simpl; rewrite ?He;
      rewrite <- ?app_assoc; simpl; eexists; (split; [reflexivity|]);
      (split; [exists 5%nat; split; [lia|done]|by rewrite ?app_nil_r]). }
  destruct audio; simpl;
    try (rewrite <- ?app_assoc; simpl; eexists; (split; [reflexivity|]);
         (split; [exists 5%nat; split; [lia|done]|by rewrite ?app_nil_r])).
  destruct (answer (respond E (stream_download _ audio_name) _))
    as [e|da]; simpl.
  { destruct (is_PytubeError e) eqn:He; simpl; rewrite ?He;
      rewrite <- ?app_assoc; simpl; eexists; (split; [reflexivity|]);
      (split; [exists 6%nat; split; [lia|done]|by rewrite ?app_nil_r]). }
  rewrite <- ?app_assoc; simpl; eexists; (split; [reflexivity|]). done.
Qed.


(** X1.  [download_youtube_resources] returns [None] only after the
    five library calls, the video stream being fetched before the audio
    stream, and then logs nothing.  When it raises, it has stopped at
    the failing call, has recorded no return, and has logged the error
    once if and only if it is a pytube error; the exception is the one
    it passes on. *)
Theorem download_youtube_resources_outcomes (E : env)
    (download_path url video_name audio_name resolution : string)
    (w : world) :
  let m :=
    download_youtube_resources E download_path url video_name audio_name
      resolution in
  let h :=
    Hdownload_youtube_resources download_path url video_name audio_name
      resolution in
  let full :=
    download_events download_path url video_name audio_name resolution in
  match (m w).1 with
  | Ok v =>
      v = VNone /\ emitted m w = full ++ [Returned h VNone] /\
      log (m w).2 = log w
  | Raise e =>
      (exists n, (2 <= n <= 6)%nat /\ emitted m w = take n full) /\
      log (m w).2 =
        log w ++
        (if is_PytubeError e
         then [(ERROR, "Failed to download the video or audio " +:+ exn_msg e)]
         else [])
  end.
Proof.
  intros m h full.
  destruct (download_youtube_resources_trace E download_path url video_name
              audio_name resolution w) as (l & Hl & Hspec).
  fold m in Hl, Hspec. rewrite (emitted_app _ _ _ Hl).
  destruct ((m w).1) as [v|e]; exact Hspec.
Qed.

(** X2.  When the client answers and no stream has the requested
    resolution, [download_youtube_resources] fails with an attribute
    error on the absent stream: no stream is downloaded, not even the
    audio, and the failure, which is no pytube error, is not logged. *)
Theorem download_without_matching_stream (E : env)
    (download_path url video_name audio_name resolution : string)
    (w : world) :
  (forall w', exists v, answer (respond E (YouTube url) w') = inr v) ->
  (forall w',
     answer (respond E (streams_first url (by_resolution resolution)) w')
     = inr VNone) ->
  let m :=
    download_youtube_resources E download_path url video_name audio_name
      resolution in
  (m w).1 = Raise (Exn AttributeError
           "'NoneType' object has no attribute 'download'") /\
  call_count is_stream_download (emitted m w) = 0%nat /\
  log (m w).2 = log w.
Proof.
  intros Hyt Hnone m. subst m.
  unfold emitted, download_youtube_resources, spied, bind, try_except,
    download, call_lib, record, logging, ret, raise.
  simpl.
  match goal with
  | |- context [answer (respond E (YouTube url) ?w0)] =>
      destruct (Hyt w0) as (v & ->)
  end.
  simpl. rewrite Hnone. simpl.
  rewrite <- !app_assoc, drop_app_length. done.
Qed.

Lemma download_without_matching_stream_witness :
  (download_youtube_resources Sample.libs_no_such_resolution "/v/abc123"
     "https://www.youtube.com/watch?v=abc123" "video_stream_1080p.mp4"
     "audio_stream_1080p.mp3" "1080p" Sample.fresh).1 =
  Raise (Exn AttributeError
           "'NoneType' object has no attribute 'download'").
Proof.
  apply (download_without_matching_stream Sample.libs_no_such_resolution
           "/v/abc123" "https://www.youtube.com/watch?v=abc123"
           "video_stream_1080p.mp4" "audio_stream_1080p.mp3" "1080p"
           Sample.fresh).
  - intros w'. by eexists.
  - intros w'. reflexivity.
Defined.


(** ** The stages in the program logic *)

Lemma emits_ext {A} (I : world -> Prop) (m m' : M A)
    (Phi : result A -> list event -> Prop) :
  (forall w, m w = m' w) -> emits I m' Phi -> emits I m Phi.
Proof. intros Heq Hm w Hw. rewrite Heq. by apply Hm. Qed.

Lemma emitted_ext {A} (m m' : M A) (w : world) :
  m w = m' w -> emitted m w = emitted m' w.
Proof. unfold emitted. by intros ->. Qed.

Section StageRules.

Context (E : env) (I : world -> Prop) (P : event -> Prop) `{!Stable I}.

Lemma keeps_upload_video_to_vimeo (video_path title : string) :
  P (Invoked (Hupload_video_to_vimeo video_path title)) ->
  P (Called (client_upload video_path title "nobody")) ->
  (forall u, P (Called (client_get_json u))) ->
  (forall v, P (Returned (Hupload_video_to_vimeo video_path title) v)) ->
  keeps I P (upload_video_to_vimeo E video_path title) (fun _ => True).
Proof.
  intros Hinv Hup Hget Hret. unfold upload_video_to_vimeo.
  apply keeps_spied; [exact _|done|done|].
  eapply keeps_seq.
  - apply keeps_try_except; [by apply keeps_call_lib; [exact _|]|].
    intros e. eapply keeps_seq; [apply keeps_logging; exact _|]. intros _.
    eapply keeps_seq; [apply keeps_logging; exact _|]. intros _.
    apply keeps_raise.
  - intros uri. eapply keeps_seq; [apply keeps_add_str|]. intros q.
    eapply keeps_seq; [by apply keeps_call_lib; [exact _|]|]. intros st.
    eapply keeps_seq; [apply keeps_logging; exact _|]. intros _.
    by apply keeps_ret.
Qed.

Lemma keeps_upload_and_attach (video_path title : string)
    (image : option string) :
  P (Invoked (Hupload_video_to_vimeo video_path title)) ->
  P (Called (client_upload video_path title "nobody")) ->
  (forall u, P (Called (client_get_json u))) ->
  (forall v, P (Returned (Hupload_video_to_vimeo video_path title) v)) ->
  (forall u i a, P (Called (client_upload_picture u i a))) ->
  keeps I P (upload_and_attach E video_path title image) (fun _ => True).
Proof.
  intros Hinv Hup Hget Hret Hpic. unfold upload_and_attach.
  eapply keeps_seq; [by apply keeps_upload_video_to_vimeo|]. intros uri.
  eapply keeps_seq.
  - instantiate (1 := fun _ => True).
    destruct (is_not_None uri && truthy image); [|by apply keeps_ret].
    eapply keeps_seq; [by apply keeps_call_lib; [exact _|]|]. intros _.
    by apply keeps_ret.
  - intros _. eapply keeps_seq; [apply keeps_logging; exact _|]. intros _.
    apply keeps_logging; exact _.
Qed.

Lemma keeps_stage_directory (video_dir : string) :
  (forall w, I w -> video_dir ∈ fs w) \/ P (Called (os_mkdir video_dir)) ->
  keeps I P (stage_directory E video_dir) (fun _ => True).
Proof.
  intros Hdir. unfold stage_directory.
  eapply keeps_bind; [apply keeps_path_exists_guard|].
  intros b Hb. destruct Hdir as [Hin|Hmk].
  - rewrite (Hb Hin). simpl. by apply keeps_ret.
  - destruct b; simpl; [by apply keeps_ret|].
    eapply keeps_seq; [apply keeps_logging; exact _|]. intros _.
    by apply keeps_mkdir; [exact _|].
Qed.

Lemma keeps_stage_download (video_dir url : string) (names paths : artifacts)
    (resolution : string) :
  keeps I P
    (download_youtube_resources E video_dir url (video_stream names)
       (audio_stream names) resolution)
    (fun _ => True) ->
  keeps I P (stage_download E video_dir url names paths resolution)
    (fun _ => True).
Proof.
  intros Hdl. unfold stage_download.
  eapply keeps_seq; [apply keeps_path_exists|]. intros have_video.
  eapply keeps_seq; [apply keeps_path_exists|]. intros have_audio.
  destruct (negb have_video || negb have_audio); [|by apply keeps_ret].
  eapply keeps_seq; [exact Hdl|]. intros _. apply keeps_logging; exact _.
Qed.

Lemma keeps_stage_merge (paths : artifacts) :
  keeps I P
    (join_resource E (video_stream paths) (audio_stream paths)
       (combined_video paths))
    (fun _ => True) ->
  keeps I P (stage_merge E paths) (fun _ => True).
Proof.
  intros Hj. unfold stage_merge.
  eapply keeps_seq; [apply keeps_path_exists|]. intros b.
  destruct (negb b); [|by apply keeps_ret].
  eapply keeps_seq; [exact Hj|]. intros _. apply keeps_logging; exact _.
Qed.

Lemma keeps_stage_trim (paths : artifacts) (s e : Z) :
  keeps I P
    (trim_resource E (combined_video paths) (trimmed_video paths) s e)
    (fun _ => True) ->
  keeps I P (stage_trim E paths s e) (fun _ => True).
Proof.
  intros Ht. unfold stage_trim.
  eapply keeps_seq; [apply keeps_path_exists|]. intros b.
  destruct (negb b); [|by apply keeps_ret].
  eapply keeps_seq; [exact Ht|]. intros _. apply keeps_logging; exact _.
Qed.

(** The client stage returns only with credentials. *)
Lemma keeps_stage_connect (v : option VimeoConfiguration) (paths : artifacts) :
  v = None \/ (forall t k s, P (Called (VimeoClient t k s))) ->
  keeps I P (stage_connect E v paths) (fun _ => v <> None).
Proof.
  intros Hv. unfold stage_connect. destruct v as [v|].
  - destruct Hv as [?|Hcl]; [done|].
    eapply keeps_seq; [apply (keeps_getattr I P)|]. intros t.
    eapply keeps_seq; [apply (keeps_getattr I P)|]. intros k.
    eapply keeps_seq; [apply (keeps_getattr I P)|]. intros s.
    eapply keeps_seq; [by apply keeps_call_lib; [exact _|]|]. intros _.
    eapply keeps_weaken; [|apply keeps_logging; exact _]. done.
  - eapply (keeps_bind I P _ _ (fun _ => False)); [apply keeps_raise|].
    by intros a [].
Qed.

(** Everything from the download on, when [P] holds of every event
    that is not the making of the directory. *)
Lemma keeps_pipeline_from_download (self : Driver)
    (c : AppDirectoryConfiguration) (video_config : VideoConfiguration)
    (title : string) :
  (forall e, is_mkdir e = false -> P e) ->
  keeps I P (pipeline_from_download E self c video_config title)
    (fun _ => True).
Proof.
  intros HP. unfold pipeline_from_download.
  eapply keeps_seq.
  { apply keeps_stage_download.
    apply keeps_download_youtube_resources; try done; intros; by apply HP. }
  intros _. eapply keeps_seq; [apply keeps_logging; exact _|]. intros _.
  eapply keeps_seq.
  { apply keeps_stage_merge.
    apply keeps_join_resource; try done; intros; by apply HP. }
  intros _. eapply keeps_seq.
  { apply keeps_stage_trim.
    apply keeps_trim_resource; try done; intros; by apply HP. }
  intros _. eapply keeps_seq.
  { apply keeps_stage_connect. right. intros. by apply HP. }
  intros _. apply keeps_upload_and_attach; intros; by apply HP.
Qed.

End StageRules.

(** ** Pipeline order *)

Lemma sorted_after_block (k k' : nat) (l1 l2 : list event) :
  (k <= k')%nat ->
  Forall (fun e => stage_of e = k) l1 ->
  StronglySorted le (map stage_of l2) ->
  Forall (fun e => (k' <= stage_of e)%nat) l2 ->
  StronglySorted le (map stage_of (l1 ++ l2)).
Proof.
  intros Hk H1 H2 Hge. induction l1 as [|e l1 IH]; simpl; [done|].
  apply Forall_cons_1 in H1 as [He H1].
  constructor; [by apply IH|].
  rewrite map_app. apply Forall_app. split.
  - apply Forall_map. eapply Forall_impl; [exact H1|]. simpl. intros; lia.
  - apply Forall_map. eapply Forall_impl; [exact Hge|]. simpl. intros; lia.
Qed.

Lemma block_orderly {A} (k : nat) (r : result A) (l : list event) :
  block k r l -> orderly k r l.
Proof.
  intros [Hall Hret]. split; [|split].
  - rewrite <- (app_nil_r l).
    by apply (sorted_after_block k k); [|done|constructor|constructor].
  - eapply Forall_impl; [exact Hall|]. simpl. intros; lia.
  - intros h Hin. destruct r as [a|e].
    + left. apply Hret; [by eexists|done].
    + right. split; [by eexists|].
      rewrite Forall_forall in Hall. pose proof (Hall _ Hin) as Hh.
      apply Forall_forall. intros e' He'. rewrite (Hall _ He'). lia.
Qed.

Section Order.

Context (E : env) (I : world -> Prop) `{!Stable I}.

Lemma block_of_calls {A} (k : nat) (m : M A) (Q : A -> Prop) :
  keeps I (call_of_stage k) m Q -> emits I m (block k).
Proof.
  apply emits_weaken. intros r l [Hall _]. split.
  - eapply Forall_impl; [exact Hall|]. by intros e [He _].
  - intros _ h Hin. rewrite Forall_forall in Hall.
    by destruct (Hall _ Hin) as [_ [c Hc]].
Qed.

Lemma block_bind {A B} (k : nat) (m : M A) (f : A -> M B) :
  emits I m (block k) -> (forall a, emits I (f a) (block k)) ->
  emits I (bind m f) (block k).
Proof.
  intros Hm Hf.
  eapply emits_weaken;
    [|by apply (emits_bind I m f (block k) (fun _ => block k))].
  intros r l (l1 & l2 & -> & [(a & [H1 R1] & [H2 R2])|(e & [H1 _] & -> & ->)]).
  - split; [by apply Forall_app|].
    intros Hok h [Hin|Hin]%elem_of_app.
    + destruct (R1 (ex_intro _ a eq_refl) h Hin) as [v Hv].
      exists v. apply elem_of_app. by left.
    + destruct (R2 Hok h Hin) as [v Hv].
      exists v. apply elem_of_app. by right.
  - rewrite app_nil_r. split; [done|]. by intros [a Ha].
Qed.

Lemma block_spied (k : nat) (h : helper) (body : M value) :
  stage_of (Invoked h) = k ->
  keeps I (call_of_stage k) body (fun _ => True) ->
  emits I (spied h body) (block k).
Proof.
  intros Hk Hbody w Hw. unfold spied, bind, record, ret. simpl.
  set (w1 := World (fs w) (today w) (trace w ++ [Invoked h]) (log w)).
  assert (I w1) as Hw1 by (by apply (stable w)).
  destruct (Hbody w1 Hw1) as (HI & lb & Hlb & Hcalls & _).
  assert (Forall (fun e => stage_of e = k) lb) as Hstage.
  { eapply Forall_impl; [exact Hcalls|]. by intros e [He _]. }
  destruct (body w1) as [[v|e] w2]; simpl in *.
  - split; [by apply (stable w2)|].
    exists (Invoked h :: lb ++ [Returned h v]). split.
    + rewrite Hlb. subst w1. simpl. by rewrite <- !app_assoc.
    + split.
      * constructor; [done|]. apply Forall_app. split; [done|].
        by repeat constructor.
      * intros _ h' Hin. apply elem_of_cons in Hin as [Heq|Hin].
        { injection Heq as ->. exists v. set_solver. }
        apply elem_of_app in Hin as [Hin|Hin].
        { rewrite Forall_forall in Hcalls.
          by destruct (Hcalls _ Hin) as [_ [c Hc]]. }
        set_solver.
  - split; [done|]. exists (Invoked h :: lb). split.
    + rewrite Hlb. subst w1. simpl. by rewrite <- !app_assoc.
    + split; [by constructor|]. by intros [a Ha].
Qed.

Lemma orderly_bind {A B} (k k' : nat) (m : M A) (f : A -> M B) :
  (k <= k')%nat ->
  emits I m (block k) -> (forall a, emits I (f a) (orderly k')) ->
  emits I (bind m f) (orderly k).
Proof.
  intros Hk Hm Hf.
  eapply emits_weaken;
    [|by apply (emits_bind I m f (block k) (fun _ => orderly k'))].
  intros r l (l1 & l2 & -> & [(a & [H1 R1] & (S2 & G2 & T2))|
                              (e & Hb & -> & ->)]).
  - split; [by eapply sorted_after_block|]. split.
    + apply Forall_app. split.
      * eapply Forall_impl; [exact H1|]. simpl. intros; lia.
      * eapply Forall_impl; [exact G2|]. simpl. intros; lia.
    + intros h [Hin|Hin]%elem_of_app.
      * destruct (R1 (ex_intro _ a eq_refl) h Hin) as [v Hv].
        left. exists v. apply elem_of_app. by left.
      * destruct (T2 h Hin) as [[v Hv]|[Hraise Hle]].
        { left. exists v. apply elem_of_app. by right. }
        right. split; [done|]. apply Forall_app. split; [|done].
        rewrite Forall_forall in G2. pose proof (G2 _ Hin) as Hh.
        eapply Forall_impl; [exact H1|]. cbv beta. intros e' He'.
        rewrite He'. lia.
  - rewrite app_nil_r. destruct Hb as [Hall _]. apply block_orderly.
    split; [done|]. by intros [a Ha].
Qed.

Lemma block_guarded (k : nat) (b : bool) (h : helper) (body : M value)
    (msg : string) :
  stage_of (Invoked h) = k ->
  keeps I (call_of_stage k) body (fun _ => True) ->
  emits I (if b then spied h body ;;; logging INFO msg else ret tt)
    (block k).
Proof.
  intros Hk Hbody. destruct b.
  - apply block_bind; [by apply block_spied|]. intros _.
    eapply block_of_calls. apply keeps_logging; exact _.
  - apply (block_of_calls k _ (fun _ => True)). by apply keeps_ret.
Qed.

End Order.

Section ProcessOrder.

Context (E : env) (I : world -> Prop) `{!Stable I}.

Local Ltac stage_call := split; [reflexivity|by eexists].

Lemma block_stage_directory (video_dir : string) :
  emits I (stage_directory E video_dir) (block 0).
Proof.
  eapply block_of_calls. apply keeps_stage_directory; [exact _|].
  right. stage_call.
Qed.

Lemma block_stage_download (video_dir url : string) (names paths : artifacts)
    (resolution : string) :
  emits I (stage_download E video_dir url names paths resolution) (block 1).
Proof.
  unfold stage_download.
  apply block_bind;
    [apply (block_of_calls I 1 _ (fun _ => True)), keeps_path_exists|].
  intros have_video.
  apply block_bind;
    [apply (block_of_calls I 1 _ (fun _ => True)), keeps_path_exists|].
  intros have_audio.
  apply block_guarded; [exact _|reflexivity|].
  apply keeps_try_except.
  - eapply keeps_seq; [apply keeps_call_lib; [exact _|stage_call]|].
    intros _.
    eapply keeps_seq; [apply keeps_call_lib; [exact _|stage_call]|].
    intros video.
    eapply keeps_seq; [apply keeps_download; [exact _|stage_call]|].
    intros _.
    eapply keeps_seq; [apply keeps_call_lib; [exact _|stage_call]|].
    intros audio.
    eapply keeps_seq; [apply keeps_download; [exact _|stage_call]|].
    intros _. by apply keeps_ret.
  - intros e. eapply keeps_seq; [apply keeps_logging; exact _|]. intros _.
    apply keeps_raise.
Qed.

Lemma block_stage_merge (paths : artifacts) :
  emits I (stage_merge E paths) (block 2).
Proof.
  unfold stage_merge.
  apply block_bind;
    [apply (block_of_calls I 2 _ (fun _ => True)), keeps_path_exists|].
  intros b. apply block_guarded; [exact _|reflexivity|].
  eapply keeps_seq; [apply keeps_call_lib; [exact _|stage_call]|].
  intros _. by apply keeps_ret.
Qed.

Lemma block_stage_trim (paths : artifacts) (s e : Z) :
  emits I (stage_trim E paths s e) (block 3).
Proof.
  unfold stage_trim.
  apply block_bind;
    [apply (block_of_calls I 3 _ (fun _ => True)), keeps_path_exists|].
  intros b. apply block_guarded; [exact _|reflexivity|].
  eapply keeps_seq; [apply keeps_call_lib; [exact _|stage_call]|].
  intros _. by apply keeps_ret.
Qed.

Lemma block_stage_connect (v : option VimeoConfiguration) (paths : artifacts) :
  emits I (stage_connect E v paths) (block 4).
Proof.
  eapply block_of_calls. apply keeps_stage_connect; [exact _|].
  right. intros t k s. stage_call.
Qed.

Lemma block_upload_video_to_vimeo (video_path title : string) :
  emits I (upload_video_to_vimeo E video_path title) (block 5).
Proof.
  apply block_spied; [exact _|reflexivity|].
  eapply keeps_seq.
  - apply keeps_try_except; [apply keeps_call_lib; [exact _|stage_call]|].
    intros e. eapply keeps_seq; [apply keeps_logging; exact _|]. intros _.
    eapply keeps_seq; [apply keeps_logging; exact _|]. intros _.
    apply keeps_raise.
  - intros uri. eapply keeps_seq; [apply keeps_add_str|]. intros q.
    eapply keeps_seq; [apply keeps_call_lib; [exact _|stage_call]|].
    intros st.
    eapply keeps_seq; [apply keeps_logging; exact _|]. intros _.
    by apply keeps_ret.
Qed.

Lemma orderly_upload_and_attach (video_path title : string)
    (image : option string) :
  emits I (upload_and_attach E video_path title image) (orderly 5).
Proof.
  unfold upload_and_attach.
  apply (orderly_bind I 5 6); [lia|apply block_upload_video_to_vimeo|].
  intros uri. eapply emits_weaken; [intros r l; apply block_orderly|].
  apply (block_of_calls I 6 _ (fun _ => True)).
  eapply keeps_seq.
  - instantiate (1 := fun _ => True).
    destruct (is_not_None uri && truthy image); [|by apply keeps_ret].
    eapply keeps_seq; [apply keeps_call_lib; [exact _|stage_call]|].
    intros _. by apply keeps_ret.
  - intros _. eapply keeps_seq; [apply keeps_logging; exact _|]. intros _.
    apply keeps_logging; exact _.
Qed.

Lemma orderly_pipeline_from_download (self : Driver)
    (c : AppDirectoryConfiguration) (video_config : VideoConfiguration)
    (title : string) :
  emits I (pipeline_from_download E self c video_config title) (orderly 1).
Proof.
  unfold pipeline_from_download.
  apply (orderly_bind I 1 1); [lia|apply block_stage_download|]. intros _.
  apply (orderly_bind I 1 2);
    [lia|apply (block_of_calls I 1 _ (fun _ => True)), keeps_logging;
         exact _|].
  intros _.
  apply (orderly_bind I 2 3); [lia|apply block_stage_merge|]. intros _.
  apply (orderly_bind I 3 4); [lia|apply block_stage_trim|]. intros _.
  apply (orderly_bind I 4 5); [lia|apply block_stage_connect|]. intros _.
  apply orderly_upload_and_attach.
Qed.

Lemma orderly_staged_process (self : Driver)
    (video_config : VideoConfiguration) :
  emits I (staged_process E self video_config) (orderly 0).
Proof.
  unfold staged_process.
  apply (orderly_bind I 0 0);
    [lia|apply (block_of_calls I 0 _ (fun _ => True)),
         keeps_resolve_title_any|].
  intros title.
  apply (orderly_bind I 0 0);
    [lia|apply (block_of_calls I 0 _ (fun _ => True)), keeps_getattr|].
  intros c.
  apply (orderly_bind I 0 1); [lia|apply block_stage_directory|]. intros _.
  apply orderly_pipeline_from_download.
Qed.

End ProcessOrder.

Lemma process_orderly (E : env) (self : Driver)
    (video_config : VideoConfiguration) (w : world) :
  orderly 0 (process E self video_config w).1
    (emitted (process E self video_config) w).
Proof.
  apply (emits_emitted (fun _ => True)); [|done].
  eapply emits_ext; [apply process_as_stages|].
  apply orderly_staged_process; exact _.
Qed.

(** ** Runs of [process], from their first steps *)

(** What follows a first step in the trace, when the steps after it
    only append. *)
Lemma emitted_bind {A B} (m : M A) (f : A -> M B) (w : world)
    (l1 : list event) :
  trace (m w).2 = trace w ++ l1 ->
  (forall a w1, exists l2, trace (f a w1).2 = trace w1 ++ l2) ->
  exists l2,
    emitted (bind m f) w = l1 ++ l2 /\
    match (m w).1 with
    | Ok a => trace (f a (m w).2).2 = trace (m w).2 ++ l2
    | Raise _ => l2 = []
    end.
Proof.
  intros Hl1 Hf. unfold emitted, bind.
  destruct (m w) as [[a|e] w1]; simpl in *.
  - destruct (Hf a w1) as (l2 & Hl2). exists l2. split; [|done].
    by rewrite Hl2, Hl1, <- app_assoc, drop_app_length.
  - exists []. split; [|done]. by rewrite Hl1, app_nil_r, drop_app_length.
Qed.

Lemma keeps_appends {A} (P : event -> Prop) (m : M A) (Q : A -> Prop)
    (w : world) :
  keeps (fun _ => True) P m Q ->
  exists l, trace (m w).2 = trace w ++ l /\ Forall P l.
Proof.
  intros Hm. destruct (Hm w I) as (_ & l & Hl & HP & _). by exists l.
Qed.

Lemma pipeline_from_download_appends (E : env) (self : Driver)
    (c : AppDirectoryConfiguration) (video_config : VideoConfiguration)
    (title : string) (w : world) :
  exists l,
    trace (pipeline_from_download E self c video_config title w).2 =
      trace w ++ l /\
    Forall (fun e => is_mkdir e = false) l.
Proof.
  eapply keeps_appends. apply keeps_pipeline_from_download; [exact _|done].
Qed.

(** The world in which [os.mkdir] is called. *)
Lemma stage_directory_absent (E : env) (video_dir : string) (w : world) :
  video_dir ∉ fs w ->
  let w_log :=
    World (fs w) (today w) (trace w)
      (log w ++ [(INFO, "Creating directory " +:+ video_dir)]) in
  stage_directory E video_dir w = mkdir E video_dir w_log.
Proof.
  intros Hin. unfold stage_directory, bind at 1, path_exists.
  by rewrite bool_decide_eq_false_2.
Qed.

Lemma mkdir_trace (E : env) (path : string) (w : world) :
  trace (mkdir E path w).2 = trace w ++ [Called (os_mkdir path)].
Proof.
  unfold mkdir, call_lib. by destruct (answer (respond E _ _)).
Qed.

(** ** Further properties of [process] and [main] *)

(** X4.  The events of every run of [process] are in pipeline order:
    the directory, then the download, the merge, the trim, the Vimeo
    client, the upload and the thumbnail; no stage runs before an
    earlier one. *)
Theorem process_events_in_pipeline_order (E : env) (self : Driver)
    (video_config : VideoConfiguration) (w : world) :
  StronglySorted le
    (map stage_of (emitted (process E self video_config) w)).
Proof. by destruct (process_orderly E self video_config w) as (? & _). Qed.

(** X5.  No stage swallows an exception: a helper that [process]
    invoked has either returned, or the run ended with an exception and
    holds no event of a later stage. *)
Theorem process_stops_at_failing_helper (E : env) (self : Driver)
    (video_config : VideoConfiguration) (w : world) (h : helper) :
  let l := emitted (process E self video_config) w in
  Invoked h ∈ l ->
  (exists v, Returned h v ∈ l) \/
  ((exists e, (process E self video_config w).1 = Raise e) /\
   Forall (fun e => (stage_of e <= stage_of (Invoked h))%nat) l).
Proof.
  intros l Hin.
  destruct (process_orderly E self video_config w) as (_ & _ & Hhalt).
  by apply Hhalt.
Qed.

Lemma process_stops_at_failing_helper_witness :
  let l := emitted (process Sample.libs_merge_fails Sample.driver
                      Sample.request) Sample.fresh in
  let paths := artifact_paths Sample.dirs Sample.request in
  let h := Hjoin_resource (video_stream paths) (audio_stream paths)
             (combined_video paths) in
  (exists v, Returned h v ∈ l) \/
  ((exists e, (process Sample.libs_merge_fails Sample.driver Sample.request
                 Sample.fresh).1 = Raise e) /\
   Forall (fun e => (stage_of e <= stage_of (Invoked h))%nat) l).
Proof.
  intros l paths h.
  apply (process_stops_at_failing_helper Sample.libs_merge_fails
           Sample.driver Sample.request Sample.fresh h).
  vm_decide_elem.
Defined.

(** [process] is its local stages followed by its remote stages. *)
Lemma process_local_then_remote (E : env) (self : Driver)
    (video_config : VideoConfiguration) (w : world) :
  process E self video_config w =
  bind (local_stages E (app_directory_config self) video_config)
    (remote_stages E (vimeo_config self) video_config) w.
Proof.
  rewrite process_as_stages.
  unfold staged_process, local_stages, remote_stages, pipeline_from_download,
    bind.
  destruct (resolve_title _ w) as [[title|e] w1]; [|done].
  destruct (getattr _ _ _ w1) as [[c|e] w2]; [|done].
  destruct (stage_directory _ _ w2) as [[[]|e] w3]; [|done].
  destruct (stage_download _ _ _ _ _ _ w3) as [[[]|e] w4]; [|done].
  destruct (logging _ _ w4) as [[[]|e] w5]; [|done].
  destruct (stage_merge _ _ w5) as [[[]|e] w6]; [|done].
  by destruct (stage_trim _ _ _ _ w6) as [[[]|e] w7].
Qed.

(** The local stages stay within the directory, the download, the
    merge and the trim. *)
Lemma keeps_local_stages (E : env)
    (directory : option AppDirectoryConfiguration)
    (video_config : VideoConfiguration) :
  keeps (fun _ => True) (fun e => (stage_of e <= 3)%nat)
    (local_stages E directory video_config) (fun _ => True).
Proof.
  unfold local_stages.
  eapply keeps_seq; [apply keeps_resolve_title_any|]. intros title.
  eapply keeps_seq; [apply keeps_getattr|]. intros c.
  eapply keeps_seq.
  { apply keeps_stage_directory; [exact _|]. right. simpl. lia. }
  intros _. eapply keeps_seq.
  { apply keeps_stage_download; [exact _|].
    apply keeps_download_youtube_resources; try exact _; intros;
      simpl; lia. }
  intros _. eapply keeps_seq; [apply keeps_logging; exact _|]. intros _.
  eapply keeps_seq.
  { apply keeps_stage_merge; [exact _|].
    apply keeps_join_resource; try exact _; intros; simpl; lia. }
  intros _. eapply keeps_seq.
  { apply keeps_stage_trim; [exact _|].
    apply keeps_trim_resource; try exact _; intros; simpl; lia. }
  intros _. by apply keeps_ret.
Qed.

(** Without credentials the remote stages fail at once, on the first
    attribute they read. *)
Lemma remote_stages_none (E : env) (video_config : VideoConfiguration)
    (ct : AppDirectoryConfiguration * string) (w : world) :
  remote_stages E None video_config ct w =
  (Raise (Exn AttributeError "'NoneType' object has no attribute 'token'"),
   w).
Proof. reflexivity. Qed.

(** With credentials they begin with the construction of the client,
    and nothing of an earlier stage follows. *)
Lemma remote_stages_some (E : env) (cfg : VimeoConfiguration)
    (video_config : VideoConfiguration)
    (ct : AppDirectoryConfiguration * string) (w : world) :
  exists l,
    trace (remote_stages E (Some cfg) video_config ct w).2 =
      trace w ++
      Called (VimeoClient (token cfg) (key cfg) (secret cfg)) :: l /\
    Forall (fun e => (4 <= stage_of e)%nat) l.
Proof.
  unfold remote_stages, stage_connect, getattr, bind, ret, call_lib, logging.
  destruct (answer (respond E _ w)) as [e|v].
  { exists []. by split. }
  match goal with
  | |- context [upload_and_attach E ?p ?t ?i ?w2] =>
      destruct (keeps_appends (fun e => (4 <= stage_of e)%nat)
                  (upload_and_attach E p t i) (fun _ => True) w2)
        as (l & Hl & HP)
  end.
  { apply keeps_upload_and_attach; try exact _; intros; simpl; lia. }
  exists l. split; [|done]. rewrite Hl. simpl. by rewrite <- app_assoc.
Qed.

Lemma filter_all {A} (P : A -> Prop) `{!forall x, Decision (P x)}
    (l : list A) :
  Forall P l -> filter P l = l.
Proof.
  induction 1 as [|x l Hx _ IH]; [done|].
  by rewrite filter_cons_True, IH.
Qed.

Lemma filter_none {A} (P : A -> Prop) `{!forall x, Decision (P x)}
    (l : list A) :
  Forall (fun x => ~ P x) l -> filter P l = [].
Proof.
  induction 1 as [|x l Hx _ IH]; [done|]. by rewrite filter_cons_False.
Qed.

(** X6.  A driver without credentials never uploads, and finds out
    only after the local work is done.  Its run of [process] always
    ends with an exception and holds no event of the client, the upload
    or the thumbnail.  It consists of exactly the directory, download,
    merge and trim events of the run the same driver makes once it is
    given credentials.  If that run fails before it constructs the
    client, the two runs are the same; otherwise the run without
    credentials ends, after the trim, with the attribute error on
    [token]. *)
Theorem process_without_credentials (E : env) (self : Driver)
    (video_config : VideoConfiguration) (cfg : VimeoConfiguration)
    (w : world) :
  vimeo_config self = None ->
  let bare := process E self video_config in
  let full := process E (update_vimeo_config self cfg) video_config in
  let is_local (e : event) := (stage_of e <= 3)%nat in
  (exists e, (bare w).1 = Raise e) /\
  Forall is_local (emitted bare w) /\
  emitted bare w = filter is_local (emitted full w) /\
  (Forall is_local (emitted full w) -> bare w = full w) /\
  (Exists (fun e => ~ is_local e) (emitted full w) ->
   (bare w).1 =
   Raise (Exn AttributeError "'NoneType' object has no attribute 'token'")).
Proof.
  intros Hnone bare full is_local. subst bare full. unfold emitted.
  rewrite !process_local_then_remote.
  change (app_directory_config (update_vimeo_config self cfg))
    with (app_directory_config self).
  change (vimeo_config (update_vimeo_config self cfg)) with (Some cfg).
  rewrite Hnone.
  destruct (keeps_appends _ _ _ w
              (keeps_local_stages E (app_directory_config self) video_config))
    as (l1 & Hl1 & HP1).
  unfold bind.
  destruct (local_stages E (app_directory_config self) video_config w)
    as [[ct|e] w1]; simpl in Hl1.
  - rewrite remote_stages_none.
    destruct (remote_stages_some E cfg video_config ct w1)
      as (l2 & Hl2 & HP2).
    rewrite Hl2. simpl. rewrite Hl1, <- app_assoc, !drop_app_length.
    split; [by eexists|]. split; [done|]. split; [|split].
    + rewrite filter_app, (filter_all _ _ HP1), filter_cons_False.
      * rewrite filter_none; [by rewrite app_nil_r|].
        eapply Forall_impl; [exact HP2|]. unfold is_local. intros; lia.
      * unfold is_local. simpl. lia.
    + intros Hall. apply Forall_app in Hall as [_ Hall].
      apply Forall_cons_1 in Hall as [Hcl _].
      unfold is_local in Hcl. simpl in Hcl. lia.
    + done.
  - simpl. rewrite Hl1, drop_app_length.
    split; [by eexists|]. split; [done|]. split; [|split].
    + by rewrite filter_all.
    + done.
    + intros Hex. apply Exists_exists in Hex as (x & Hin & Hx).
      rewrite Forall_forall in HP1. by apply HP1 in Hin.
Qed.

Lemma process_without_credentials_witness :
  (process Sample.libs Sample.driver_without_credentials Sample.request
     Sample.fresh).1 =
  Raise (Exn AttributeError "'NoneType' object has no attribute 'token'") /\
  Returned
    (Htrim_resource "/v/abc123/combined_1080p.mp4"
       "/v/abc123/10_20_1080p.mp4" 10 20) VNone
  ∈ emitted (process Sample.libs Sample.driver_without_credentials
               Sample.request) Sample.fresh.
Proof.
  destruct (process_without_credentials Sample.libs
              Sample.driver_without_credentials Sample.request Sample.creds
              Sample.fresh eq_refl)
    as (_ & _ & Hlocal & _ & Hfail).
  split.
  - apply Hfail. apply Exists_exists.
    exists (Called (VimeoClient "t" "k" "s")).
    split; [vm_decide_elem|]. simpl. lia.
  - rewrite Hlocal. vm_decide_elem.
Defined.

(** X7.  The per-video directory: when it exists, [os.mkdir] is not
    called; when it is missing, [os.mkdir] on it is the first event of
    the run and is called once, before any download; and when that
    call raises, the exception is the result of [process] and the run
    ends there. *)
Theorem process_makes_missing_directory_first (E : env) (self : Driver)
    (video_config : VideoConfiguration) (c : AppDirectoryConfiguration)
    (w : world) :
  app_directory_config self = Some c ->
  let video_dir := video_dir_of c video_config in
  let l := emitted (process E self video_config) w in
  let w_log :=
    World (fs w) (today w) (trace w)
      (log w ++ [(INFO, "Creating directory " +:+ video_dir)]) in
  (video_dir ∈ fs w -> call_count is_mkdir l = 0%nat) /\
  (video_dir ∉ fs w ->
   (exists rest,
      l = Called (os_mkdir video_dir) :: rest /\
      call_count is_mkdir rest = 0%nat) /\
   (forall e,
      answer (respond E (os_mkdir video_dir) w_log) = inl e ->
      (process E self video_config w).1 = Raise e /\
      l = [Called (os_mkdir video_dir)])).
Proof.
  intros Hc video_dir l w_log. subst l.
  rewrite (emitted_ext _ _ _ (process_as_stages E self video_config w)).
  rewrite (emitted_ext _ _ _ (staged_process_run E self video_config c w Hc)).
  rewrite process_as_stages, (staged_process_run E self video_config c w Hc).
  fold video_dir.
  set (K := fun _ : unit =>
              pipeline_from_download E self c video_config
                (title_for (today w) (video_title video_config))).
  assert (forall a w1, exists l2, trace (K a w1).2 = trace w1 ++ l2) as HK.
  { intros a w1. destruct (pipeline_from_download_appends E self c
      video_config (title_for (today w) (video_title video_config)) w1)
      as (l2 & Hl2 & _). by exists l2. }
  split.
  - intros Hin. unfold emitted, bind.
    rewrite (stage_directory_present E video_dir w Hin).
    destruct (pipeline_from_download_appends E self c video_config
                (title_for (today w) (video_title video_config)) w)
      as (l2 & Hl2 & Hno).
    subst K. simpl. rewrite Hl2, drop_app_length.
    by apply call_count_none.
  - intros Hout.
    pose proof (stage_directory_absent E video_dir w Hout) as Hdir.
    simpl in Hdir. fold w_log in Hdir.
    assert (trace (stage_directory E video_dir w).2 =
            trace w ++ [Called (os_mkdir video_dir)]) as Htr.
    { rewrite Hdir. apply (mkdir_trace E video_dir w_log). }
    destruct (emitted_bind (stage_directory E video_dir) K w _ Htr HK)
      as (l2 & Hl & Hrest).
    split.
    + exists l2. split; [done|].
      destruct (stage_directory E video_dir w) as [[a|e] w1] eqn:Hrun;
        simpl in Hrest; [|by subst l2].
      destruct (pipeline_from_download_appends E self c video_config
                  (title_for (today w) (video_title video_config)) w1)
        as (l2' & Hl2' & Hno).
      subst K. simpl in Hrest. rewrite Hl2' in Hrest.
      apply app_inv_head in Hrest. subst l2'. by apply call_count_none.
    + intros e He. rewrite Hl. unfold bind.
      rewrite Hdir in Hrest |- *. unfold mkdir, call_lib in Hrest |- *.
      rewrite He in Hrest |- *. simpl in Hrest |- *. by subst l2.
Qed.

Lemma process_makes_missing_directory_first_witness :
  exists rest,
    emitted (process Sample.libs Sample.driver Sample.request) Sample.fresh
    = Called (os_mkdir "/v/abc123") :: rest /\
    call_count is_mkdir rest = 0%nat.
Proof.
  destruct (process_makes_missing_directory_first Sample.libs Sample.driver
              Sample.request Sample.dirs Sample.fresh eq_refl)
    as [_ Habsent].
  apply Habsent. apply not_elem_of_empty.
Defined.

Lemma pipeline_from_merge_appends (E : env) (self : Driver)
    (c : AppDirectoryConfiguration) (video_config : VideoConfiguration)
    (title : string) (w : world) :
  exists l,
    trace (pipeline_from_merge E self c video_config title w).2 =
    trace w ++ l.
Proof.
  assert (keeps (fun _ => True) (fun _ => True)
            (pipeline_from_merge E self c video_config title)
            (fun _ => True)) as Hk.
  { unfold pipeline_from_merge.
    eapply keeps_seq; [apply keeps_logging; exact _|]. intros _.
    eapply keeps_seq.
    { apply keeps_stage_merge; [exact _|].
      by apply keeps_join_resource; try exact _. }
    intros _. eapply keeps_seq.
    { apply keeps_stage_trim; [exact _|].
      by apply keeps_trim_resource; try exact _. }
    intros _. eapply keeps_seq.
    { apply keeps_stage_connect; [exact _|]. by right. }
    intros _. by apply keeps_upload_and_attach; try exact _. }
  destruct (keeps_appends _ _ _ w Hk) as (l & Hl & _). by exists l.
Qed.

(** With a stream file missing the download helper is entered, and it
    is the first thing the stage does. *)
Lemma stage_download_missing (E : env) (video_dir url : string)
    (names paths : artifacts) (resolution : string) (w : world) :
  video_stream paths ∉ fs w \/ audio_stream paths ∉ fs w ->
  exists l,
    trace (stage_download E video_dir url names paths resolution w).2 =
    trace w ++
    Invoked (Hdownload_youtube_resources video_dir url (video_stream names)
               (audio_stream names) resolution) :: l.
Proof.
  intros Hmiss. unfold stage_download, bind at 1 2, path_exists.
  assert (negb (bool_decide (video_stream paths ∈ fs w)) ||
          negb (bool_decide (audio_stream paths ∈ fs w)) = true) as ->.
  { destruct Hmiss as [H|H]; rewrite (bool_decide_eq_false_2 _ H); simpl;
      [done|by rewrite orb_true_r]. }
  destruct (download_youtube_resources_trace E video_dir url
              (video_stream names) (audio_stream names) resolution w)
    as (l & Hl & Hspec).
  simpl in Hl, Hspec. unfold bind.
  destruct (download_youtube_resources E video_dir url (video_stream names)
              (audio_stream names) resolution w) as [[v|e] w1];
    simpl in *.
  - destruct Hspec as (_ & -> & _). rewrite Hl. by eexists.
  - destruct Hspec as [(n & Hn & ->) _]. rewrite Hl.
    destruct n as [|n]; [lia|]. by eexists.
Qed.

(** X8.  The two stream files are fetched together: when the directory
    exists and the video-stream file or the audio-stream file is
    missing, the run starts by entering [download_youtube_resources]
    with both file names, also when the other file is there. *)
Theorem process_downloads_both_when_one_is_missing (E : env) (self : Driver)
    (video_config : VideoConfiguration) (c : AppDirectoryConfiguration)
    (w : world) :
  app_directory_config self = Some c ->
  let paths := artifact_paths c video_config in
  let names := artifact_names video_config in
  video_dir_of c video_config ∈ fs w ->
  video_stream paths ∉ fs w \/ audio_stream paths ∉ fs w ->
  exists rest,
    emitted (process E self video_config) w =
    Invoked (Hdownload_youtube_resources (video_dir_of c video_config)
               (get_youtube_url E (video_id video_config))
               (video_stream names) (audio_stream names)
               (resolution video_config)) :: rest.
Proof.
  intros Hc paths names Hdir Hmiss.
  rewrite (emitted_ext _ _ _ (process_as_stages E self video_config w)).
  rewrite (emitted_ext _ _ _ (staged_process_run E self video_config c w Hc)).
  assert (forall K : unit -> M unit,
            emitted (bind (stage_directory E (video_dir_of c video_config)) K)
              w = emitted (K tt) w) as ->.
  { intros K. unfold emitted, bind.
    by rewrite (stage_directory_present E _ w Hdir). }
  destruct (stage_download_missing E (video_dir_of c video_config)
              (get_youtube_url E (video_id video_config)) names paths
              (resolution video_config) w Hmiss) as (l1 & Hl1).
  destruct (emitted_bind _
              (fun _ : unit =>
                 pipeline_from_merge E self c video_config
                   (title_for (today w) (video_title video_config)))
              w _ Hl1) as (l2 & Hl & _).
  { intros a w1. apply pipeline_from_merge_appends. }
  exists (l1 ++ l2). exact Hl.
Qed.

Lemma process_downloads_both_when_one_is_missing_witness :
  exists rest,
    emitted (process Sample.libs Sample.driver Sample.request)
      Sample.audio_missing =
    Invoked (Hdownload_youtube_resources "/v/abc123"
               "https://www.youtube.com/watch?v=abc123"
               "video_stream_1080p.mp4" "audio_stream_1080p.mp3" "1080p")
    :: rest.
Proof.
  apply (process_downloads_both_when_one_is_missing Sample.libs
           Sample.driver Sample.request Sample.dirs Sample.audio_missing
           eq_refl).
  - vm_decide_elem.
  - right. intros Hin. apply (bool_decide_pack _) in Hin.
    vm_compute in Hin. exact Hin.
Defined.

(** [download_youtube_resources] emits events of its complete run
    only. *)
Lemma keeps_download_events (E : env) (P : event -> Prop)
    (download_path url video_name audio_name resolution : string) :
  Forall P
    (download_events download_path url video_name audio_name resolution) ->
  P (Returned
       (Hdownload_youtube_resources download_path url video_name audio_name
          resolution) VNone) ->
  keeps (fun _ => True) P
    (download_youtube_resources E download_path url video_name audio_name
       resolution)
    (fun _ => True).
Proof.
  intros Hfull Hret w _. split; [done|].
  destruct (download_youtube_resources_trace E download_path url video_name
              audio_name resolution w) as (l & Hl & Hspec).
  exists l. split; [done|]. split; [|done].
  destruct (download_youtube_resources E download_path url video_name
              audio_name resolution w).1 as [v|e].
  - destruct Hspec as (_ & -> & _). apply Forall_app. split; [done|].
    by repeat constructor.
  - destruct Hspec as ((n & _ & ->) & _). by apply Forall_take.
Qed.

Lemma tail_events_library (url : string) (c : AppDirectoryConfiguration)
    (video_config : VideoConfiguration) (video_path title : string)
    (l : list event) :
  tail_events video_path title (image_url video_config) l ->
  Forall (library_event url c video_config) l.
Proof.
  intros (r & lu & Hlu & Hl).
  assert (Forall (library_event url c video_config) lu) as Hflu.
  { destruct r as [v|e]; simpl in Hlu.
    - destruct Hlu as (u & -> & ->). by repeat constructor.
    - destruct Hlu as [->|(u & ->)]; by repeat constructor. }
  destruct r as [v|e]; [|by subst].
  destruct Hl as (la & Hla & ->). apply Forall_app. split; [done|].
  unfold attach_events in Hla. subst la.
  destruct (is_not_None v && truthy (image_url video_config)) eqn:Hcond;
    [|constructor].
  apply andb_true_iff in Hcond as [_ Himg].
  destruct (image_url video_config) as [i|] eqn:Hi; [|done].
  by repeat constructor.
Qed.

Lemma process_library_events (E : env) (self : Driver)
    (video_config : VideoConfiguration) (c : AppDirectoryConfiguration)
    (w : world) :
  app_directory_config self = Some c ->
  Forall (library_event (get_youtube_url E (video_id video_config)) c
            video_config)
    (emitted (process E self video_config) w).
Proof.
  intros Hc.
  set (P := library_event (get_youtube_url E (video_id video_config)) c
              video_config).
  apply (emits_emitted (fun _ => True) (process E self video_config)
           (fun _ l => Forall P l)); [|done].
  eapply (emits_process E (fun _ => True) P) with (Qt := fun _ => True);
    try eassumption.
  - done.
  - intros _ l1 l2 H1 H2. by apply Forall_app.
  - done.
  - right. apply keeps_download_events; [|done].
    unfold download_events.
    repeat (apply Forall_cons_2; [simpl; auto|]). apply Forall_nil_2.
  - right. by apply keeps_join_resource.
  - right. by apply keeps_trim_resource.
  - done.
  - by apply keeps_resolve_title_any.
  - intros title _. eapply emits_weaken; [|by apply emits_upload_and_attach].
    intros r l Hl. cbv beta. unfold P. eapply tail_events_library.
    exact Hl.
Qed.

(** X9.  Every event of a run works on the artifacts of the request.
    The directory made is the per-video directory.  The download helper
    is entered with that directory, the URL of the video and the two
    stream names; the download client is opened on that URL, asked for
    the stream of the requested resolution or for the audio stream, and
    each stream is saved into the per-video directory under its stream
    name.  The merge reads the two stream paths and writes the combined
    path with the video codec copied; the trim reads the combined path
    and writes the trimmed path with [ss] the start second, [t] the end
    second and both codecs copied.  The upload sends the trimmed path
    with comments disabled, and a thumbnail call carries the image of
    the request, activated. *)
Theorem process_works_on_the_artifacts (E : env) (self : Driver)
    (video_config : VideoConfiguration) (c : AppDirectoryConfiguration)
    (w : world) :
  app_directory_config self = Some c ->
  Forall (artifact_event (get_youtube_url E (video_id video_config)) c
            video_config)
    (emitted (process E self video_config) w).
Proof.
  intros Hc. unfold artifact_event. apply Forall_and. split.
  - by apply process_stage_events.
  - by apply process_library_events.
Qed.

Lemma process_works_on_the_artifacts_witness :
  Forall (artifact_event "https://www.youtube.com/watch?v=abc123" Sample.dirs
            Sample.request)
    (emitted (process Sample.libs Sample.driver Sample.request)
       Sample.fresh).
Proof.
  exact (process_works_on_the_artifacts Sample.libs Sample.driver
           Sample.request Sample.dirs Sample.fresh eq_refl).
Defined.


(** ** The artifact names *)

Lemma uint_of_string_without (c : ascii) (s : string) (d : Decimal.uint) :
  uint_of_char c (Some Decimal.Nil) = None ->
  NilEmpty.uint_of_string s = Some d -> free_of c s = true.
Proof.
  intros Hc. revert d. induction s as [|a s IH]; simpl; [done|].
  intros d Hd. destruct (NilEmpty.uint_of_string s) as [d'|] eqn:Hs;
    [|done].
  rewrite (IH d' eq_refl), andb_true_r.
  destruct (Ascii.eqb_spec a c) as [->|Hne]; [|done].
  apply uint_of_char_spec in Hd.
  repeat destruct Hd as [[-> _]|Hd]; try done. by destruct Hd as [-> _].
Qed.

Lemma str_int_without (c : ascii) (n : Z) :
  uint_of_char c (Some Decimal.Nil) = None -> c <> "-"%char ->
  free_of c (str_int n) = true.
Proof.
  intros Hc Hminus.
  assert (forall d, free_of c (NilEmpty.string_of_uint d) = true) as Hu.
  { intros d. eapply uint_of_string_without; [done|apply NilEmpty.usu]. }
  assert (forall d, free_of c (NilZero.string_of_uint d) = true) as Hz.
  { intros d. destruct d; try apply Hu.
    change (negb (Ascii.eqb "0" c) && true = true).
    destruct (Ascii.eqb_spec "0"%char c) as [Heq|Hne]; [|done].
    subst c. discriminate Hc. }
  unfold str_int. destruct (Z.to_int n) as [d|d]; [apply Hz|].
  change (negb (Ascii.eqb "-" c) && free_of c (NilZero.string_of_uint d)
          = true).
  rewrite Hz, andb_true_r.
  destruct (Ascii.eqb_spec "-"%char c) as [Heq|Hne]; [|done].
  by subst c.
Qed.

Lemma head_not_free (c : ascii) (s r t : string) :
  s <> "" -> free_of c s = true -> s +:+ r <> String c t.
Proof.
  destruct s as [|a s]; [done|]. simpl.
  intros _ [Ha _]%andb_true_iff [= -> _]. by rewrite Ascii.eqb_refl in Ha.
Qed.

Lemma trimmed_name_head (v : VideoConfiguration) (c : ascii) (t : string) :
  uint_of_char c (Some Decimal.Nil) = None -> c <> "-"%char ->
  trimmed_video (artifact_names v) <> String c t.
Proof.
  intros Hc Hminus. unfold artifact_names. simpl.
  rewrite !string_app_assoc.
  apply head_not_free; [apply str_int_nonempty|by apply str_int_without].
Qed.

(** X11.  The four artifact paths of a request are pairwise distinct,
    so that the existence check of one stage never sees the file of
    another. *)
Theorem artifact_paths_are_distinct (c : AppDirectoryConfiguration)
    (video_config : VideoConfiguration) :
  let paths := artifact_paths c video_config in
  NoDup [video_stream paths; audio_stream paths; combined_video paths;
         trimmed_video paths].
Proof.
  intros paths. subst paths. unfold artifact_paths.
  set (d := video_dir_of c video_config).
  set (names := artifact_names video_config). simpl.
  assert (forall a b, starts_with_sep a = false -> starts_with_sep b = false ->
            a <> b -> path_join d a <> path_join d b) as Hne.
  { intros a b Ha Hb Hab Heq. by apply Hab, (path_join_inj d). }
  pose proof (trimmed_name_relative video_config) as Hrel.
  pose proof (trimmed_name_head video_config) as Hhead.
  fold names in Hrel, Hhead.
  assert (video_stream names <> trimmed_video names) as H1.
  { intros Heq. by eapply (Hhead "v"%char); [| |rewrite <- Heq]. }
  assert (audio_stream names <> trimmed_video names) as H2.
  { intros Heq. by eapply (Hhead "a"%char); [| |rewrite <- Heq]. }
  assert (combined_video names <> trimmed_video names) as H3.
  { intros Heq. by eapply (Hhead "c"%char); [| |rewrite <- Heq]. }
  repeat constructor; rewrite ?not_elem_of_cons; repeat split;
    try apply not_elem_of_nil; apply Hne; try done.
Qed.

(** X12.  The artifact names encode the resolution and the time range
    without collision: two requests have the same four names exactly
    when they have the same resolution, start second and end second. *)
Theorem artifact_names_encode_request (v1 v2 : VideoConfiguration) :
  artifact_names v1 = artifact_names v2 <->
  resolution v1 = resolution v2 /\
  start_time_in_sec v1 = start_time_in_sec v2 /\
  end_time_in_sec v1 = end_time_in_sec v2.
Proof.
  split.
  - intros Heq.
    assert (resolution v1 = resolution v2) as Hres.
    { apply (f_equal combined_video) in Heq. unfold artifact_names in Heq.
      simpl in Heq. apply (inj (String.app "combined_")) in Heq.
      by apply string_app_inv_tail in Heq. }
    split; [done|]. apply trimmed_name_inj; [done|by rewrite Heq].
  - intros (Hres & Hs & He). unfold artifact_names.
    by rewrite Hres, Hs, He.
Qed.

(** ** The upload, once, and its thumbnail *)

Lemma call_count_app (p : event -> bool) (l1 l2 : list event) :
  call_count p (l1 ++ l2) = (call_count p l1 + call_count p l2)%nat.
Proof. unfold call_count. by rewrite filter_app, length_app. Qed.

(** X13.  A thumbnail call of a run is made with the image path of the
    request, with activation requested, and on the URI that
    [upload_video_to_vimeo] returned in that run. *)
Theorem thumbnail_is_attached_to_the_upload (E : env) (self : Driver)
    (video_config : VideoConfiguration) (w : world) (uri : value)
    (img : string) (a : bool) :
  let l := emitted (process E self video_config) w in
  Called (client_upload_picture uri img a) ∈ l ->
  image_url video_config = Some img /\ img <> "" /\ a = true /\
  exists p t, Returned (Hupload_video_to_vimeo p t) uri ∈ l.
Proof.
  intros l. subst l.
  destruct (app_directory_config self) as [c|] eqn:Hc.
  2:{ destruct (process_no_directory_emitted E self video_config w Hc)
        as (-> & _). by intros Hin%elem_of_nil. }
  pose (Phi := fun (r : result unit) (l : list event) =>
    Called (client_upload_picture uri img a) ∈ l ->
    image_url video_config = Some img /\ img <> "" /\ a = true /\
    exists p t, Returned (Hupload_video_to_vimeo p t) uri ∈ l).
  apply (emits_emitted (fun _ => True) (process E self video_config) Phi);
    [|done].
  eapply (process_emits E _ (fun e => is_upload_picture e = false))
    with (Qt := fun _ => True); try eassumption.
  - intros e l Hl Hin. rewrite Forall_forall in Hl. by apply Hl in Hin.
  - intros r l1 l2 Hl1 H2 [Hin|Hin]%elem_of_app.
    + rewrite Forall_forall in Hl1. by apply Hl1 in Hin.
    + destruct (H2 Hin) as (? & ? & ? & p & t & Hret).
      repeat split; try done. exists p, t. apply elem_of_app. by right.
  - by intros e _ _ _ _ He _.
  - right. split; [event_cases|done].
  - right. split; [event_cases|done].
  - right. split; [event_cases|done].
  - by apply keeps_resolve_title_any.
  - intros t r l _ (ru & lu & Hlu & Hl) Hin.
    destruct ru as [v|e]; simpl in Hlu.
    + destruct Hlu as (u & -> & ->). destruct Hl as (la & Hla & ->).
      unfold attach_events in Hla. simpl in Hla.
      destruct (image_url video_config) as [i|] eqn:Hi; simpl in Hla;
        [|subst la; set_solver].
      destruct (bool_decide (i = "")) eqn:Hempty; simpl in Hla;
        [subst la; set_solver|].
      subst la.
      apply elem_of_app in Hin as [Hin|Hin]; [set_solver|].
      apply list_elem_of_singleton in Hin. injection Hin as -> -> ->.
      apply bool_decide_eq_false in Hempty.
      repeat split; try done. eexists _, _.
      do 3 apply list_elem_of_further. apply list_elem_of_here.
    + subst l. destruct Hlu as [->|(u & ->)]; set_solver.
Qed.

Lemma thumbnail_is_attached_to_the_upload_witness :
  image_url Sample.request = Some "thumb.png" /\ "thumb.png" <> "" /\
  true = true /\
  exists p t,
    Returned (Hupload_video_to_vimeo p t) (VStr "/videos/1")
    ∈ emitted (process Sample.libs Sample.driver Sample.request)
        Sample.fresh.
Proof.
  apply (thumbnail_is_attached_to_the_upload Sample.libs Sample.driver
           Sample.request Sample.fresh (VStr "/videos/1") "thumb.png" true).
  vm_decide_elem.
Defined.

(** X14.  [process] uploads at most once per run, and exactly once in a
    run that returns: there is no retry and no second upload. *)
Theorem process_uploads_at_most_once (E : env) (self : Driver)
    (video_config : VideoConfiguration) (w : world) :
  let l := emitted (process E self video_config) w in
  (call_count is_client_upload l <= 1)%nat /\
  ((process E self video_config w).1 = Ok tt ->
   call_count is_client_upload l = 1%nat).
Proof.
  intros l. subst l.
  destruct (app_directory_config self) as [c|] eqn:Hc.
  2:{ destruct (process_no_directory_emitted E self video_config w Hc)
        as (-> & e & ->). split; [cbv; lia|done]. }
  pose (Phi := fun (r : result unit) (l : list event) =>
    (call_count is_client_upload l <= 1)%nat /\
    (r = Ok tt -> call_count is_client_upload l = 1%nat)).
  apply (emits_emitted (fun _ => True) (process E self video_config) Phi);
    [|done].
  eapply (process_emits E _ (fun e => is_client_upload e = false))
    with (Qt := fun _ => True); try eassumption.
  - intros e l Hl. unfold Phi. rewrite (call_count_none _ _ Hl).
    split; [lia|done].
  - intros r l1 l2 Hl1 [H1 H2]. unfold Phi. rewrite call_count_app.
    rewrite (call_count_none _ _ Hl1). simpl. done.
  - intros e _ _ _ He _ _. by destruct e as [| |[]].
  - right. split; [event_cases|done].
  - right. split; [event_cases|done].
  - right. split; [event_cases|done].
  - by apply keeps_resolve_title_any.
  - intros t r l _ (ru & lu & Hlu & Hl).
    unfold Phi.
    assert (call_count is_client_upload l = 1%nat) as ->; [|by split].
    destruct ru as [v|e]; simpl in Hlu.
    + destruct Hlu as (u & -> & ->). destruct Hl as (la & Hla & ->).
      unfold attach_events in Hla. subst la.
      by destruct (is_not_None (VStr u) && truthy (image_url video_config)).
    + subst l. by destruct Hlu as [->|(u & ->)].
Qed.
